(** * go-share: chunking, chunk store, tracker registry and chunk transfer

    A shallow embedding of the Go packages [internal/file], [internal/peer]
    and [internal/tracker] of go-share, and the properties of its
    specification that concern them.

    Conventions of the embedding:
    - Go's [int64] and [int] (64 bits) are [Z] with the wrap-around written
      out ([wrap64]); [/] on them is Go's truncating division ([Z.quot]).
    - a file on disk is the list of its bytes; [Seek] followed by a read is
      [drop]; [Stat().Size()] is the length.
    - errors are values of a sum type; run-time panics are a third outcome.
    - [crypto/sha256] is implemented in full (FIPS 180-4), so that every
      definition below evaluates on concrete inputs. *)

From Stdlib Require Import ZArith Lia List Strings.Byte String Ascii.
From stdpp Require Import base tactics option list strings gmap.

Set Warnings "-register-all".
Unset Default Proof Using.
Local Open Scope Z_scope.

(** ** SHA-256 (crypto/sha256) *)

Module SHA256.

Definition w32 (x : Z) : Z := x mod 2 ^ 32.

Definition rotr (n x : Z) : Z :=
  Z.lor (Z.shiftr x n) (w32 (Z.shiftl x (32 - n))).

Definition Ch (x y z : Z) : Z :=
  Z.lxor (Z.land x y) (Z.land (Z.lxor x (2 ^ 32 - 1)) z).

Definition Maj (x y z : Z) : Z :=
  Z.lxor (Z.lxor (Z.land x y) (Z.land x z)) (Z.land y z).

Definition bsig0 (x : Z) : Z := Z.lxor (Z.lxor (rotr 2 x) (rotr 13 x)) (rotr 22 x).
Definition bsig1 (x : Z) : Z := Z.lxor (Z.lxor (rotr 6 x) (rotr 11 x)) (rotr 25 x).
Definition ssig0 (x : Z) : Z := Z.lxor (Z.lxor (rotr 7 x) (rotr 18 x)) (Z.shiftr x 3).
Definition ssig1 (x : Z) : Z := Z.lxor (Z.lxor (rotr 17 x) (rotr 19 x)) (Z.shiftr x 10).

(** The round constants are the first 32 bits of the fractional parts of
    the cube roots of the first 64 primes, the initial state those of the
    square roots of the first 8; they are computed here rather than
    tabulated. *)
Definition primes64 : list Z :=
  [2; 3; 5; 7; 11; 13; 17; 19; 23; 29; 31; 37; 41; 43; 47; 53;
   59; 61; 67; 71; 73; 79; 83; 89; 97; 101; 103; 107; 109; 113; 127; 131;
   137; 139; 149; 151; 157; 163; 167; 173; 179; 181; 191; 193; 197; 199; 211; 223;
   227; 229; 233; 239; 241; 251; 257; 263; 269; 271; 277; 281; 283; 293; 307; 311].

(** Largest [r] below [2 ^ bits] with [r ^ 3 <= n], one bit at a time. *)
Fixpoint icbrt_bits (bits : nat) (n r : Z) : Z :=
  match bits with
  | O => r
  | S b =>
      let r' := r + 2 ^ Z.of_nat b in
      icbrt_bits b n (if r' * r' * r' <=? n then r' else r)
  end.

Definition frac_cbrt32 (p : Z) : Z := w32 (icbrt_bits 40 (p * 2 ^ 96) 0).
Definition frac_sqrt32 (p : Z) : Z := w32 (Z.sqrt (p * 2 ^ 64)).

Definition K : list Z := Eval vm_compute in List.map frac_cbrt32 primes64.
Definition H0 : list Z := Eval vm_compute in List.map frac_sqrt32 (firstn 8 primes64).

(** Padding: a 1 bit, zeros up to 56 mod 64, the bit length on 8 bytes,
    big endian. *)
Definition be_bytes (n : nat) (x : Z) : list Z :=
  List.map (fun i => Z.shiftr x (8 * Z.of_nat i) mod 256) (rev (seq 0 n)).

Definition pad (msg : list Z) : list Z :=
  let len := Z.of_nat (length msg) in
  let zeros := Z.to_nat ((55 - len) mod 64) in
  msg ++ 128 :: repeat 0 zeros ++ be_bytes 8 (8 * len).

Fixpoint be_words (fuel : nat) (bs : list Z) : list Z :=
  match fuel, bs with
  | S k, b0 :: b1 :: b2 :: b3 :: rest =>
      (((b0 * 256 + b1) * 256 + b2) * 256 + b3) :: be_words k rest
  | _, _ => []
  end.

Record regs := Regs { ra : Z; rb : Z; rc : Z; rd : Z; re : Z; rf : Z; rg : Z; rh : Z }.

Definition round (s : regs) (k w : Z) : regs :=
  let t1 := w32 (rh s + bsig1 (re s) + Ch (re s) (rf s) (rg s) + k + w) in
  let t2 := w32 (bsig0 (ra s) + Maj (ra s) (rb s) (rc s)) in
  Regs (w32 (t1 + t2)) (ra s) (rb s) (rc s) (w32 (rd s + t1)) (re s) (rf s) (rg s).

(** The message schedule is kept as a window of the 16 most recent words:
    its head is [W t], and [W (t+16)] is appended after each round. *)
Definition next_word (win : list Z) : Z :=
  w32 (ssig1 (nth 14 win 0) + nth 9 win 0 + ssig0 (nth 1 win 0) + nth 0 win 0).

Fixpoint rounds (ks : list Z) (win : list Z) (s : regs) : regs :=
  match ks with
  | [] => s
  | k :: ks' => rounds ks' (tl win ++ [next_word win]) (round s k (hd 0 win))
  end.

Definition add_regs (x y : regs) : regs :=
  Regs (w32 (ra x + ra y)) (w32 (rb x + rb y)) (w32 (rc x + rc y)) (w32 (rd x + rd y))
       (w32 (re x + re y)) (w32 (rf x + rf y)) (w32 (rg x + rg y)) (w32 (rh x + rh y)).

Definition compress (s : regs) (block : list Z) : regs :=
  add_regs s (rounds K (be_words 16 block) s).

Fixpoint blocks (n : nat) (bs : list Z) (s : regs) : regs :=
  match n with
  | O => s
  | S n' => blocks n' (skipn 64 bs) (compress s (firstn 64 bs))
  end.

Definition init : regs :=
  Regs (nth 0 H0 0) (nth 1 H0 0) (nth 2 H0 0) (nth 3 H0 0)
       (nth 4 H0 0) (nth 5 H0 0) (nth 6 H0 0) (nth 7 H0 0).

Definition byte_of_Z (x : Z) : byte :=
  match Byte.of_N (Z.to_N (x mod 256)) with Some b => b | None => x00 end.

Definition Z_of_byte (b : byte) : Z := Z.of_N (Byte.to_N b).

(** [sha256.Sum256]: the 32-byte digest. *)
Definition Sum256 (data : list byte) : list byte :=
  let p := pad (List.map Z_of_byte data) in
  let s := blocks (length p / 64)%nat p init in
  List.map byte_of_Z
    (concat (List.map (be_bytes 4)
       [ra s; rb s; rc s; rd s; re s; rf s; rg s; rh s])).

End SHA256.

(** [fmt.Sprintf("%x", b)] on a byte slice or array: two lower-case
    hexadecimal digits per byte. *)
Definition hex_digit (n : Z) : ascii :=
  nth (Z.to_nat n)
      ["0"; "1"; "2"; "3"; "4"; "5"; "6"; "7"; "8"; "9"; "a"; "b"; "c"; "d"; "e"; "f"]%char
      "0"%char.

Fixpoint hex (bs : list byte) : string :=
  match bs with
  | [] => EmptyString
  | b :: rest =>
      let n := SHA256.Z_of_byte b in
      String (hex_digit (n / 16)) (String (hex_digit (n mod 16)) (hex rest))
  end.

Definition sha256_hex (data : list byte) : string := hex (SHA256.Sum256 data).

Definition bytes_of (s : string) : list byte := list_byte_of_string s.

(** ** Outcomes of fallible Go code *)

(** Go [error] values that the embedded code can return: those of [os],
    [io] and [net] it propagates, and the ones it makes with [fmt.Errorf]. *)
Inductive error : Type :=
  | ENOENT                  (* os.Open: the path names no file *)
  | EINVAL                  (* Seek: negative offset *)
  | EOF                     (* io.EOF *)
  | ErrUnexpectedEOF        (* io.ErrUnexpectedEOF *)
  | ENet                    (* dial, write or read error of package net *)
  | EDisk                   (* MkdirAll, Create or Write error of package os *)
  | Errorf (msg : string)                   (* fmt.Errorf(msg) *)
  | Wrapf (msg : string) (cause : error).   (* fmt.Errorf(msg ++ ": %v", cause) *)

(** A call returns a value, returns an error, or panics. *)
Inductive result (A : Type) : Type :=
  | Ok (a : A)
  | Err (e : error)
  | Panic (msg : string).
Arguments Ok {A} a.
Arguments Err {A} e.
Arguments Panic {A} msg.

(** ** 64-bit integers *)

Definition MaxInt64 : Z := 2 ^ 63 - 1.
Definition MinInt64 : Z := - 2 ^ 63.

(** The value of an [int64] (or [int]) expression whose mathematical
    value is [x]. *)
Definition wrap64 (x : Z) : Z := (x + 2 ^ 63) mod 2 ^ 64 - 2 ^ 63.

(** A file system: the regular files, by path, with their bytes. *)
Abbreviation FS := (gmap string (list byte)).

(** [io.ReadFull(r, buf)] with [len(buf) = n], on a reader that delivers
    [avail] and then ends: [n] bytes, or [io.EOF] when nothing could be
    read, or [io.ErrUnexpectedEOF] after a short read.  With [n = 0]
    nothing is read and there is no error. *)
Definition ReadFull (avail : list byte) (n : nat) : error + list byte :=
  if (n <=? length avail)%nat then inr (take n avail)
  else if (length avail =? 0)%nat then inl EOF
  else inl ErrUnexpectedEOF.

(** ** Package file *)

Module File.

Record Chunk := { Hash : string; Size : Z }.

Record Manifest := {
  FileName : string;
  FileSize : Z;
  ChunkSize : Z;
  Chunks : list Chunk;
  FileHash : string
}.

Definition DefaultChunkSize : Z := 1024 * 1024.

(** [fileInfo.Name()]: the last element of the path. *)
Fixpoint basename_from (acc : string) (p : string) : string :=
  match p with
  | EmptyString => acc
  | String c rest =>
      if Ascii.eqb c "/" then basename_from rest rest else basename_from acc rest
  end.
Definition basename (p : string) : string := basename_from p p.

(** The body of the loop of [CreateManifest] at index [i]: the inner
    [chunkSize], which shadows the parameter, ... *)
Definition innerChunkSize (size chunkSize numChunks i : Z) : Z :=
  if i =? wrap64 (numChunks - 1)
  then wrap64 (size - wrap64 (i * chunkSize))
  else chunkSize.

(** ... and the offset handed to [file.Seek], computed from the inner
    [chunkSize]. *)
Definition seekOffset (size chunkSize numChunks i : Z) : Z :=
  wrap64 (i * innerChunkSize size chunkSize numChunks i).

(** [file.WriteTo(h)] after [file.Seek(off, 0)] feeds the hash every
    byte from [off] to the end of the file. *)
Definition hashFrom (f : list byte) (off : Z) : string :=
  sha256_hex (drop (Z.to_nat off) f).

(** The loop [for i := int64(0); i < numChunks; i++], with [n]
    iterations left. *)
Fixpoint chunkLoop (f : list byte) (size chunkSize numChunks : Z)
         (n : nat) (i : Z) : result (list Chunk) :=
  match n with
  | O => Ok []
  | S n' =>
      let cs := innerChunkSize size chunkSize numChunks i in
      let off := seekOffset size chunkSize numChunks i in
      if off <? 0 then Err EINVAL
      else
        let chunk := {| Hash := hashFrom f off; Size := cs |} in
        match chunkLoop f size chunkSize numChunks n' (wrap64 (i + 1)) with
        | Ok rest => Ok (chunk :: rest)
        | Err e => Err e
        | Panic msg => Panic msg
        end
  end.

(** [(fileInfo.Size() + chunkSize - 1) / chunkSize] on [int64]. *)
Definition numChunksOf (size chunkSize : Z) : Z :=
  wrap64 (Z.quot (wrap64 (wrap64 (size + chunkSize) - 1)) chunkSize).

Definition CreateManifest (fs : FS) (filePath : string) (chunkSize : Z)
  : result Manifest :=
  match fs !! filePath with
  | None => Err ENOENT
  | Some f =>
      let size := Z.of_nat (length f) in
      let fileHash := hashFrom f 0 in
      if chunkSize =? 0 then Panic "integer divide by zero"
      else
        let numChunks := numChunksOf size chunkSize in
        if numChunks <? 0 then Panic "makeslice: len out of range"
        else
          match chunkLoop f size chunkSize numChunks (Z.to_nat numChunks) 0 with
          | Ok chunks =>
              Ok {| FileName := basename filePath;
                    FileSize := size;
                    ChunkSize := chunkSize;
                    Chunks := chunks;
                    FileHash := fileHash |}
          | Err e => Err e
          | Panic msg => Panic msg
          end
  end.

(** The loop of [GetChunk] that computes the offset: one addition of
    [chunk.Size] per byte of [chunk.Hash]. *)
Fixpoint offsetLoop (n : nat) (size offset : Z) : Z :=
  match n with
  | O => offset
  | S n' => offsetLoop n' size (wrap64 (offset + size))
  end.

Definition hashFailed : error := Errorf "chunk hash verification failed".

Definition GetChunk (fs : FS) (filePath : string) (chunk : Chunk)
  : result (list byte) :=
  match fs !! filePath with
  | None => Err ENOENT
  | Some f =>
      let offset := offsetLoop (String.length (Hash chunk)) (Size chunk) 0 in
      if offset <? 0 then Err EINVAL
      else if Size chunk <? 0 then Panic "makeslice: len out of range"
      else
        match ReadFull (drop (Z.to_nat offset) f) (Z.to_nat (Size chunk)) with
        | inl e => Err e
        | inr data =>
            if String.eqb (sha256_hex data) (Hash chunk) then Ok data
            else Err hashFailed
        end
  end.

(** The limits of the machine that [GetChunk] can meet: the largest
    offset that the file system lets [Seek] set, and the largest slice that
    [make] allocates. *)
Record Limits := { seekMax : Z; allocMax : Z }.

(** [GetChunk] on a machine with these limits: [Seek] fails with EINVAL
    also for an offset beyond [seekMax], and [make] stops the program also
    for a size beyond [allocMax]. *)
Definition GetChunkOn (lim : Limits) (fs : FS) (filePath : string) (chunk : Chunk)
  : result (list byte) :=
  match fs !! filePath with
  | None => Err ENOENT
  | Some f =>
      let offset := offsetLoop (String.length (Hash chunk)) (Size chunk) 0 in
      if (offset <? 0) || (seekMax lim <? offset) then Err EINVAL
      else if (Size chunk <? 0) || (allocMax lim <? Size chunk)
      then Panic "makeslice: len out of range"
      else
        match ReadFull (drop (Z.to_nat offset) f) (Z.to_nat (Size chunk)) with
        | inl e => Err e
        | inr data =>
            if String.eqb (sha256_hex data) (Hash chunk) then Ok data
            else Err hashFailed
        end
  end.

(** [HashChunk] and [HashChunks]: the raw digests. *)
Definition HashChunk (chunk : list byte) : list byte := SHA256.Sum256 chunk.

Definition HashChunks (chunks : list (list byte)) : list (list byte) :=
  List.map HashChunk chunks.

Definition VerifyChunk (chunk : Chunk) (data : list byte) : bool :=
  String.eqb (sha256_hex data) (Hash chunk).

(** [WriteChunk]: the file is the list of bytes written so far; [Write]
    appends, and [writeOk] tells whether it succeeds. *)
Definition WriteChunk (writeOk : bool) (file : list byte) (chunk : Chunk)
           (data : list byte) : result unit * list byte :=
  if negb (String.eqb (sha256_hex data) (Hash chunk)) then (Err hashFailed, file)
  else if negb writeOk then (Err EDisk, file)
  else (Ok tt, file ++ data).

(** Modelled from the spec: the chunk-read operation with a manifest and
    an index, [ReadChunk(fileHandle, manifest, index)], which package peer
    calls as [file.GetChunk(filePath, manifest, index)] and package file
    does not define.  "Computes the byte offset as index * chunkSize,
    reads exactly chunk.size bytes, recomputes the digest over the bytes
    read, and compares to chunk.hash"; an index outside the chunks is a
    range error. *)
Definition ReadChunk (fs : FS) (filePath : string) (m : Manifest) (index : Z)
  : result (list byte) :=
  match fs !! filePath with
  | None => Err ENOENT
  | Some f =>
      if (index <? 0) || (Z.of_nat (length (Chunks m)) <=? index)
      then Err (Errorf "chunk index out of range")
      else
        match Chunks m !! Z.to_nat index with
        | None => Err (Errorf "chunk index out of range")
        | Some chunk =>
            match ReadFull (drop (Z.to_nat (index * ChunkSize m)) f)
                           (Z.to_nat (Size chunk)) with
            | inl e => Err e
            | inr data =>
                if VerifyChunk chunk data then Ok data else Err hashFailed
            end
        end
  end.

(** *** Closed forms, for the statements about the chunker *)

(** The number of chunks and the size of chunk [i] as integers, without
    the wrap-around of [int64]. *)
Definition numChunksExact (size chunkSize : Z) : Z :=
  (size + chunkSize - 1) / chunkSize.

Definition sizeAt (size chunkSize i : Z) : Z :=
  if i =? numChunksExact size chunkSize - 1 then size - i * chunkSize
  else chunkSize.

(** The chunk that the loop of [CreateManifest] makes at index [i]: its
    hash is over the file from offset [i * sizeAt i] to its end. *)
Definition chunkAt (f : list byte) (chunkSize i : Z) : Chunk :=
  let size := Z.of_nat (length f) in
  {| Hash := hashFrom f (i * sizeAt size chunkSize i);
     Size := sizeAt size chunkSize i |}.

(** The byte range of each chunk of a manifest as the chunk store
    locates it: offset [index * chunkSize], length [chunk.size]. *)
Fixpoint boundariesFrom (chunkSize i : Z) (chunks : list Chunk) : list (Z * Z) :=
  match chunks with
  | [] => []
  | c :: rest => (i * chunkSize, Size c) :: boundariesFrom chunkSize (i + 1) rest
  end.

Definition boundaries (m : Manifest) : list (Z * Z) :=
  boundariesFrom (ChunkSize m) 0 (Chunks m).

(** The bytes [off, off + len) of a file. *)
Definition byteRange (f : list byte) (off len : Z) : list byte :=
  take (Z.to_nat len) (drop (Z.to_nat off) f).

End File.

(** ** Package peer *)

Module Peer.
Import File.

(** *** The serving side *)

(** What [handleConnection] logs when it returns without writing. *)
Inductive refusal : Type :=
  | BadRequest                      (* "Error reading chunk request" *)
  | ManifestError (e : error)       (* "Error creating manifest" *)
  | ManifestPanic (msg : string)
  | InvalidIndex (chunkIndex : Z)   (* "Invalid chunk index" *)
  | ChunkError (e : error)          (* "Error reading chunk" *)
  | ChunkPanic (msg : string).

(** What one accepted connection gets before the deferred [conn.Close()]:
    nothing, or one [conn.Write(chunkData)]. *)
Inductive served : Type :=
  | NoPayload (why : refusal)
  | Payload (chunkData : list byte).

Definition onWire (s : served) : list byte :=
  match s with
  | NoPayload _ => []
  | Payload chunkData => chunkData
  end.

Section Server.
(** [handleConnection] calls [file.GetChunk(filePath, manifest,
    req.ChunkIndex)]; package file defines [GetChunk] with a chunk in
    place of the manifest and the index, so the callee is a parameter of
    the server. *)
Variable file_GetChunk : FS -> string -> Manifest -> Z -> result (list byte).

(** [req] is the outcome of decoding the request: [None] when [Decode]
    fails, else the [ChunkIndex]. *)
Definition handleConnection (fs : FS) (filePath : string) (req : option Z)
  : served :=
  match req with
  | None => NoPayload BadRequest
  | Some chunkIndex =>
      match CreateManifest fs filePath DefaultChunkSize with
      | Err e => NoPayload (ManifestError e)
      | Panic msg => NoPayload (ManifestPanic msg)
      | Ok manifest =>
          if (chunkIndex <? 0) || (Z.of_nat (length (Chunks manifest)) <=? chunkIndex)
          then NoPayload (InvalidIndex chunkIndex)
          else
            match file_GetChunk fs filePath manifest chunkIndex with
            | Err e => NoPayload (ChunkError e)
            | Panic msg => NoPayload (ChunkPanic msg)
            | Ok chunkData => Payload chunkData
            end
      end
  end.
End Server.

(** *** The requesting side *)

Record Peer := { Address : string; Port : Z }.

(** The environment of a client: for the [c]-th connection it dials,
    whether [net.Dial] succeeds, whether the request is written, and what
    arrives on it after a request for [chunkIndex] (the bytes, and whether
    the stream then ends with an error instead of a close); for the disk,
    whether the output file can be created and each [Write] succeeds. *)
Record Env := {
  dialOk : nat -> bool;
  sendOk : nat -> bool;
  reply : nat -> Z -> list byte * bool;
  mkdirOk : bool;
  createOk : bool;
  writeOk : Z -> bool
}.

Inductive Event : Type :=
  | EvCreate (path : string)
  | EvDialFailed (addr : string) (port : Z)
  | EvDial (c : nat) (addr : string) (port : Z)
  | EvRequest (c : nat) (chunkIndex : Z)
  | EvConnClose (c : nat)
  | EvAppend (data : list byte)
  | EvFileClose.

(** The state a client acts on: the bytes of the output file, the number
    of connections dialled so far, and what it has done, in order. *)
Record World := {
  outFile : list byte;
  dialled : nat;
  trace : list Event
}.

Definition emit (e : Event) (w : World) : World :=
  {| outFile := outFile w; dialled := dialled w; trace := trace w ++ [e] |}.

Definition connect (addr : string) (port : Z) (w : World) : World :=
  {| outFile := outFile w; dialled := S (dialled w);
     trace := trace w ++ [EvDial (dialled w) addr port] |}.

Definition append (data : list byte) (w : World) : World :=
  {| outFile := outFile w ++ data; dialled := dialled w;
     trace := trace w ++ [EvAppend data] |}.

Definition truncate (path : string) (w : World) : World :=
  {| outFile := []; dialled := dialled w; trace := trace w ++ [EvCreate path] |}.

(** Deferred [conn.Close()] calls run when the function returns, last
    deferred first. *)
Definition runDefers (defers : list nat) (w : World) : World :=
  fold_left (fun w c => emit (EvConnClose c) w) defers w.

(** [io.ReadAll(conn)]: everything up to the end of the stream, and the
    error if the stream did not end with a close. *)
Definition ReadAll (stream : list byte * bool) : error + list byte :=
  if snd stream then inl ENet else inr (fst stream).

(** [io.ReadFull(conn, buf)]: the bytes that arrive before the stream
    ends count, however it ends. *)
Definition ReadFullConn (stream : list byte * bool) (n : nat) : error + list byte :=
  if (n <=? length (fst stream))%nat then inr (take n (fst stream))
  else if snd stream then inl ENet
  else if (length (fst stream) =? 0)%nat then inl EOF
  else inl ErrUnexpectedEOF.

Definition DownloadChunk (env : Env) (peer : Peer) (chunkIndex : Z) (w : World)
  : result (list byte) * World :=
  let c := dialled w in
  if negb (dialOk env c)
  then (Err (Wrapf "failed to connect to peer" ENet),
        emit (EvDialFailed (Address peer) (Port peer)) w)
  else
    let w := connect (Address peer) (Port peer) w in
    if negb (sendOk env c)
    then (Err (Wrapf "failed to send chunk request" ENet), runDefers [c] w)
    else
      let w := emit (EvRequest c chunkIndex) w in
      match ReadAll (reply env c chunkIndex) with
      | inl e => (Err (Wrapf "failed to read chunk data" e), runDefers [c] w)
      | inr data => (Ok data, runDefers [c] w)
      end.

(** The loop [for i, chunk := range manifest.Chunks] of [DownloadFile],
    from index [i] on; [defers] are the connections whose [Close] has
    been deferred so far, the last one first. *)
Fixpoint downloadLoop (env : Env) (peerAddress : string) (peerPort : Z)
         (chunks : list Chunk) (i : Z) (defers : list nat) (w : World)
  : result unit * list nat * World :=
  match chunks with
  | [] => (Ok tt, defers, w)
  | chunk :: rest =>
      let c := dialled w in
      if negb (dialOk env c)
      then (Err (Wrapf "failed to connect to peer" ENet), defers,
            emit (EvDialFailed peerAddress peerPort) w)
      else
        let w := connect peerAddress peerPort w in
        let defers := c :: defers in
        if negb (sendOk env c)
        then (Err (Wrapf "failed to send chunk request" ENet), defers, w)
        else
          let w := emit (EvRequest c i) w in
          if Size chunk <? 0
          then (Panic "makeslice: len out of range", defers, w)
          else
            match ReadFullConn (reply env c i) (Z.to_nat (Size chunk)) with
            | inl e => (Err (Wrapf "failed to read chunk data" e), defers, w)
            | inr chunkData =>
                if negb (VerifyChunk chunk chunkData)
                then (Err (Errorf "chunk hash verification failed"), defers, w)
                else if negb (writeOk env i)
                then (Err (Wrapf "failed to write chunk to file" EDisk), defers, w)
                else downloadLoop env peerAddress peerPort rest (i + 1) defers
                                  (append chunkData w)
            end
  end.

Definition DownloadFile (env : Env) (manifest : Manifest) (peerAddress : string)
           (peerPort : Z) (outputPath : string) (w : World)
  : result unit * World :=
  if negb (mkdirOk env)
  then (Err (Wrapf "failed to create output directory" EDisk), w)
  else if negb (createOk env)
  then (Err (Wrapf "failed to create output file" EDisk), w)
  else
    let w := truncate outputPath w in
    let '(r, defers, w) :=
      downloadLoop env peerAddress peerPort (Chunks manifest) 0 [] w in
    (r, emit EvFileClose (runDefers defers w)).

(** The connections open after a trace, and the largest number open at
    once along it. *)
Definition openAfter (open : list nat) (e : Event) : list nat :=
  match e with
  | EvDial c _ _ => c :: open
  | EvConnClose c => List.filter (fun c' => negb (c' =? c)%nat) open
  | _ => open
  end.

Fixpoint peakOpen (open : list nat) (tr : list Event) : nat :=
  match tr with
  | [] => length open
  | e :: tr' => Nat.max (length open) (peakOpen (openAfter open e) tr')
  end.

Definition requests (tr : list Event) : list Z :=
  omap (fun e => match e with EvRequest _ i => Some i | _ => None end) tr.

Definition dials (tr : list Event) : list (string * Z) :=
  omap (fun e => match e with
                 | EvDial _ a p => Some (a, p)
                 | EvDialFailed a p => Some (a, p)
                 | _ => None end) tr.

(** A peer that serves [filePath] with [handleConnection] on a network
    without failures: every connection gets what the handler writes. *)
Definition servingEnv (getChunk : FS -> string -> Manifest -> Z -> result (list byte))
           (fs : FS) (filePath : string) : Env :=
  {| dialOk := fun _ => true;
     sendOk := fun _ => true;
     reply := fun _ chunkIndex =>
                (onWire (handleConnection getChunk fs filePath (Some chunkIndex)), false);
     mkdirOk := true;
     createOk := true;
     writeOk := fun _ => true |}.

Definition world0 : World := {| outFile := []; dialled := 0; trace := [] |}.

End Peer.

(** ** Package tracker *)

Module Tracker.

Record Peer := { Address : string; Port : Z }.

(** The registry [map[string][]Peer].  A slice value is [nil] or has
    elements: looking up a key the map lacks yields the [nil] slice, which
    is [None] here, and every stored slice comes from [append].  The
    mutex makes each handler atomic, so a handler is a function of the
    registry. *)
Record Tracker := { peers : gmap string (list Peer) }.

Definition NewTracker : Tracker := {| peers := ∅ |}.

Record AnnounceRequest := {
  req_FileHash : string;
  req_Address : string;
  req_Port : Z
}.

(** JSON values, as far as the tracker writes them. *)
Inductive json : Type :=
  | JNull
  | JNum (n : Z)
  | JStr (s : string)
  | JArr (items : list json)
  | JObj (fields : list (string * json)).

(** [PeersResponse], with its slice field: [None] is the [nil] slice. *)
Record PeersResponse := { Peers : option (list Peer) }.

Definition encodePeer (p : Peer) : json :=
  JObj [("address"%string, JStr (Address p)); ("port"%string, JNum (Port p))].

(** [encoding/json] writes a [nil] slice as [null] and any other slice
    as an array. *)
Definition encodePeersResponse (r : PeersResponse) : json :=
  JObj [("peers"%string,
         match Peers r with
         | None => JNull
         | Some ps => JArr (List.map encodePeer ps)
         end)].

(** An HTTP request as the handlers read it: the method, the query
    parameters, and the outcome of decoding the body as JSON into an
    [AnnounceRequest] ([None] when [Decode] returns an error). *)
Record Request := {
  Method : string;
  Query : list (string * string);
  Body : option AnnounceRequest
}.

(** [r.URL.Query().Get(key)]: the first value of [key], or the empty
    string. *)
Fixpoint queryGet (q : list (string * string)) (key : string) : string :=
  match q with
  | [] => EmptyString
  | (k, v) :: rest => if String.eqb k key then v else queryGet rest key
  end.

Inductive payload : Type :=
  | Empty
  | Text (msg : string)
  | Json (v : json).

(** What a handler did with its [http.ResponseWriter]: the status given
    to [WriteHeader], if it was called, the content type and the body. *)
Record Response := {
  wroteHeader : option Z;
  contentType : string;
  body : payload
}.

Definition StatusOK : Z := 200.
Definition StatusBadRequest : Z := 400.
Definition StatusMethodNotAllowed : Z := 405.

(** The status the client receives: [net/http] answers 200 when the
    handler wrote a body, or returned, without calling [WriteHeader]. *)
Definition statusSent (r : Response) : Z := default StatusOK (wroteHeader r).

Definition http_Error (msg : string) (code : Z) : Response :=
  {| wroteHeader := Some code;
     contentType := "text/plain; charset=utf-8";
     body := Text (msg ++ String "010"%char EmptyString) |}.

Definition untouched : Response :=
  {| wroteHeader := None; contentType := ""; body := Empty |}.

Definition samePeer (p q : Peer) : bool :=
  String.eqb (Address p) (Address q) && (Port p =? Port q).

Definition Announce (t : Tracker) (r : Request) : Tracker * Response :=
  if negb (String.eqb (Method r) "POST")
  then (t, http_Error "Method not allowed" StatusMethodNotAllowed)
  else
    match Body r with
    | None => (t, http_Error "Invalid request" StatusBadRequest)
    | Some req =>
        let peer := {| Address := req_Address req; Port := req_Port req |} in
        let ps := default [] (peers t !! req_FileHash req) in
        if existsb (fun p => samePeer p peer) ps
        then (t, untouched)
        else ({| peers := <[req_FileHash req := ps ++ [peer]]> (peers t) |},
              {| wroteHeader := Some StatusOK; contentType := ""; body := Empty |})
    end.

Definition GetPeers (t : Tracker) (r : Request) : Response :=
  if negb (String.eqb (Method r) "GET")
  then http_Error "Method not allowed" StatusMethodNotAllowed
  else
    let fileHash := queryGet (Query r) "fileHash" in
    if String.eqb fileHash ""
    then http_Error "Missing fileHash parameter" StatusBadRequest
    else
      let response := {| Peers := peers t !! fileHash |} in
      {| wroteHeader := None;
         contentType := "application/json";
         body := Json (encodePeersResponse response) |}.

(** The server of [StartTrackerServer]: requests to [/announce] and
    [/peers], one after the other, from a new tracker. *)
Inductive Call : Type :=
  | ToAnnounce (r : Request)
  | ToPeers (r : Request).

Definition serve (t : Tracker) (c : Call) : Tracker :=
  match c with
  | ToAnnounce r => fst (Announce t r)
  | ToPeers _ => t
  end.

Definition run (calls : list Call) : Tracker := fold_left serve calls NewTracker.

(** The requests a peer makes (cmd/client): the announcement of a file
    and the query for its peers. *)
Definition announcement (fileHash address : string) (port : Z) : Request :=
  {| Method := "POST"; Query := [];
     Body := Some {| req_FileHash := fileHash; req_Address := address;
                     req_Port := port |} |}.

Definition peersQuery (fileHash : string) : Request :=
  {| Method := "GET"; Query := [("fileHash"%string, fileHash)]; Body := None |}.

(** The entries for [p] under [fileHash]. *)
Definition entries (t : Tracker) (fileHash : string) (p : Peer) : nat :=
  length (List.filter (samePeer p) (default [] (peers t !! fileHash))).

(** No peer is listed twice under a hash. *)
Definition unique (t : Tracker) : Prop :=
  forall (h : string) (p : Peer), (entries t h p <= 1)%nat.

(** Whether a call announces [fileHash]. *)
Definition announces (fileHash : string) (c : Call) : bool :=
  match c with
  | ToAnnounce r =>
      String.eqb (Method r) "POST" &&
      match Body r with
      | Some req => String.eqb (req_FileHash req) fileHash
      | None => false
      end
  | ToPeers _ => false
  end.

(** The spec's words for a malformed announcement: "empty fileHash,
    invalid address/port". *)
Definition specMalformed (req : AnnounceRequest) : bool :=
  String.eqb (req_FileHash req) "" || String.eqb (req_Address req) ""
  || (req_Port req <? 1) || (65535 <? req_Port req).

End Tracker.

(** ** Auxiliary notions for the statements *)

(** The characters [fmt.Sprintf("%x", ...)] can produce. *)
Definition lowerHex (c : ascii) : bool :=
  existsb (Ascii.eqb c)
    ["0"; "1"; "2"; "3"; "4"; "5"; "6"; "7"; "8"; "9"; "a"; "b"; "c"; "d"; "e"; "f"]%char.

Fixpoint allChars (P : ascii -> bool) (s : string) : bool :=
  match s with
  | EmptyString => true
  | String c rest => P c && allChars P rest
  end.

(** The connections open after the events [evs], when those in [open]
    were open before. *)
Definition openConns (evs : list Peer.Event) (open : list nat) : list nat :=
  fold_left Peer.openAfter evs open.

(** Whether a call announces the peer [p] for [fileHash]. *)
Definition announcesPeer (fileHash : string) (p : Tracker.Peer) (c : Tracker.Call) : bool :=
  match c with
  | Tracker.ToAnnounce r =>
      String.eqb (Tracker.Method r) "POST" &&
      match Tracker.Body r with
      | Some req =>
          String.eqb (Tracker.req_FileHash req) fileHash
          && Tracker.samePeer {| Tracker.Address := Tracker.req_Address req;
                                 Tracker.Port := Tracker.req_Port req |} p
      | None => false
      end
  | Tracker.ToPeers _ => false
  end.

(** The sum of the sizes of chunks. *)
Definition totalSize (chunks : list File.Chunk) : Z :=
  foldr Z.add 0 (File.Size <$> chunks).

(** * Properties *)

(** ** Digests and integers *)

Example sha256_empty :
  sha256_hex [] = "e3b0c44298fc1c149afbf4c8996fb92427ae41e4649b934ca495991b7852b855"%string.
Proof. vm_compute. reflexivity. Qed.

Example sha256_abc :
  sha256_hex (bytes_of "abc")
  = "ba7816bf8f01cfea414140de5dae2223b00361a396177a9cb410ff61f20015ad"%string.
Proof. vm_compute. reflexivity. Qed.

Example sha256_two_blocks :
  sha256_hex (repeat "a"%byte 70)
  = "6bd5e5034855a11241f0dee8fc72850ffd9955b28347a86428b5fa19119f6ad0"%string.
Proof. vm_compute. reflexivity. Qed.

Lemma hex_length (bs : list byte) :
  String.length (hex bs) = (2 * length bs)%nat.
Proof. induction bs as [|b bs IH]; simpl; [reflexivity | rewrite IH; lia]. Qed.

Lemma Sum256_length (data : list byte) : length (SHA256.Sum256 data) = 32%nat.
Proof. unfold SHA256.Sum256. rewrite length_map. reflexivity. Qed.

(** A digest in hexadecimal has 64 characters, whatever was hashed. *)
Lemma sha256_hex_length (data : list byte) :
  String.length (sha256_hex data) = 64%nat.
Proof. unfold sha256_hex. rewrite hex_length, Sum256_length. reflexivity. Qed.

Lemma wrap64_id (x : Z) : MinInt64 <= x <= MaxInt64 -> wrap64 x = x.
Proof.
  unfold wrap64, MinInt64, MaxInt64. intros H.
  rewrite Z.mod_small; lia.
Qed.

Lemma wrap64_range (x : Z) : MinInt64 <= wrap64 x <= MaxInt64.
Proof.
  unfold wrap64, MinInt64, MaxInt64.
  pose proof (Z.mod_pos_bound (x + 2 ^ 63) (2 ^ 64) ltac:(lia)). lia.
Qed.

Lemma wrap64_wrap_add (x y : Z) : wrap64 (wrap64 x + y) = wrap64 (x + y).
Proof.
  unfold wrap64. f_equal.
  replace ((x + 2 ^ 63) mod 2 ^ 64 - 2 ^ 63 + y + 2 ^ 63)
    with ((x + 2 ^ 63) mod 2 ^ 64 + y) by lia.
  rewrite Zplus_mod_idemp_l. f_equal. lia.
Qed.

(** ** The chunker *)

Section Chunker.
Import File.

Variable f : list byte.
Variable chunkSize : Z.
Let size : Z := Z.of_nat (length f).

Hypothesis chunkSize_pos : 0 < chunkSize.
Hypothesis no_overflow : size + chunkSize - 1 <= MaxInt64.

(** The number of chunks, without the wrap-around. *)
Let n : Z := numChunksExact size chunkSize.

Lemma numChunksOf_exact : numChunksOf size chunkSize = n.
Proof.
  unfold numChunksOf, n, numChunksExact.
  assert (Hsz : 0 <= size) by (unfold size; lia).
  assert (HM : MaxInt64 = 2 ^ 63 - 1) by reflexivity.
  assert (Hm : MinInt64 = - 2 ^ 63) by reflexivity.
  replace (wrap64 (size + chunkSize) - 1) with (wrap64 (size + chunkSize) + -1) by lia.
  rewrite wrap64_wrap_add.
  rewrite (wrap64_id (size + chunkSize + -1)) by lia.
  replace (size + chunkSize + -1) with (size + chunkSize - 1) by lia.
  rewrite Z.quot_div_nonneg by lia.
  apply wrap64_id.
  pose proof (Z.div_pos (size + chunkSize - 1) chunkSize ltac:(lia) ltac:(lia)).
  pose proof (Z.div_le_upper_bound (size + chunkSize - 1) chunkSize MaxInt64
                ltac:(lia) ltac:(nia)).
  lia.
Qed.

(** [n] is the ceiling of [size / chunkSize]. *)
Lemma n_ceiling : (n - 1) * chunkSize < size <= n * chunkSize.
Proof.
  unfold n, numChunksExact.
  pose proof (Z.mul_div_le (size + chunkSize - 1) chunkSize ltac:(lia)).
  pose proof (Z.mul_succ_div_gt (size + chunkSize - 1) chunkSize ltac:(lia)).
  nia.
Qed.

Lemma n_nonneg : 0 <= n.
Proof.
  assert (Hsz : 0 <= size) by (unfold size; lia).
  unfold n, numChunksExact. apply Z.div_pos; lia.
Qed.

Local Abbreviation sizeAt := (File.sizeAt size chunkSize).
Local Abbreviation chunkAt := (File.chunkAt f chunkSize).

Lemma sizeAt_bounds (i : Z) : 0 <= i < n -> 0 < sizeAt i <= chunkSize.
Proof.
  intros Hi. unfold File.sizeAt. fold n. pose proof n_ceiling.
  destruct (Z.eqb_spec i (n - 1)); [subst i|]; nia.
Qed.

Lemma innerChunkSize_exact (i : Z) :
  0 <= i < n -> innerChunkSize size chunkSize n i = sizeAt i.
Proof.
  intros Hi. unfold innerChunkSize, File.sizeAt. fold n. pose proof n_ceiling.
  assert (HM : MaxInt64 = 2 ^ 63 - 1) by reflexivity.
  assert (Hm : MinInt64 = - 2 ^ 63) by reflexivity.
  assert (size <= MaxInt64) by lia.
  assert (n <= size).
  { assert (Hsz : 0 <= size) by (unfold size; lia).
    destruct (Z.eq_dec n 0); [lia | nia]. }
  rewrite (wrap64_id (n - 1)) by lia.
  destruct (Z.eqb_spec i (n - 1)); [|reflexivity].
  rewrite (wrap64_id (i * chunkSize)) by nia.
  apply wrap64_id. nia.
Qed.

Lemma seekOffset_exact (i : Z) :
  0 <= i < n -> seekOffset size chunkSize n i = i * sizeAt i
                /\ 0 <= i * sizeAt i.
Proof.
  intros Hi. unfold seekOffset. rewrite innerChunkSize_exact by assumption.
  pose proof (sizeAt_bounds i Hi). pose proof n_ceiling.
  assert (HM : MaxInt64 = 2 ^ 63 - 1) by reflexivity.
  assert (Hm : MinInt64 = - 2 ^ 63) by reflexivity.
  split; [apply wrap64_id|]; nia.
Qed.

Lemma chunkLoop_exact (k : nat) :
  forall i, 0 <= i -> i + Z.of_nat k <= n ->
    chunkLoop f size chunkSize n k i = Ok (chunkAt <$> seqZ i (Z.of_nat k)).
Proof.
  induction k as [|k IH]; intros i Hi Hk; [rewrite seqZ_nil by lia; reflexivity|].
  cbn [chunkLoop].
  destruct (seekOffset_exact i ltac:(lia)) as [Hoff Hpos].
  rewrite Hoff, innerChunkSize_exact by lia.
  destruct (Z.ltb_spec (i * sizeAt i) 0); [lia|].
  assert (HM : MaxInt64 = 2 ^ 63 - 1) by reflexivity.
  assert (Hm : MinInt64 = - 2 ^ 63) by reflexivity.
  pose proof n_ceiling.
  assert (n <= MaxInt64).
  { destruct (Z.eq_dec n 0); [lia | nia]. }
  rewrite wrap64_id by lia.
  rewrite IH by lia.
  rewrite (seqZ_cons i) by lia.
  rewrite fmap_cons. unfold File.chunkAt at 2.
  replace (Z.pred (Z.of_nat (S k))) with (Z.of_nat k) by lia.
  reflexivity.
Qed.

(** On a readable file [CreateManifest] returns, and its chunks are
    those of [chunkAt], in order. *)
Lemma CreateManifest_exact (fs : FS) (filePath : string) :
  fs !! filePath = Some f ->
  CreateManifest fs filePath chunkSize
  = Ok {| FileName := basename filePath;
          FileSize := size;
          ChunkSize := chunkSize;
          Chunks := chunkAt <$> seqZ 0 n;
          FileHash := sha256_hex f |}.
Proof.
  intros Hf. unfold CreateManifest. rewrite Hf.
  destruct (Z.eqb_spec chunkSize 0); [lia|].
  fold size. rewrite numChunksOf_exact.
  pose proof n_nonneg.
  destruct (Z.ltb_spec n 0); [lia|].
  rewrite chunkLoop_exact by lia.
  rewrite Z2Nat.id by lia. reflexivity.
Qed.

Lemma sum_sizes_from (k : nat) :
  forall i, 0 <= i -> i + Z.of_nat k = n -> (0 < k)%nat ->
    foldr Z.add 0 (sizeAt <$> seqZ i (Z.of_nat k)) = size - i * chunkSize.
Proof.
  induction k as [|k IH]; intros i Hi Hk Hpos; [lia|].
  rewrite (seqZ_cons i) by lia. rewrite fmap_cons. cbn [foldr].
  replace (Z.pred (Z.of_nat (S k))) with (Z.of_nat k) by lia.
  destruct k as [|k].
  - rewrite seqZ_nil by lia. cbn [fmap list_fmap foldr].
    unfold File.sizeAt. fold n. destruct (Z.eqb_spec i (n - 1)); lia.
  - rewrite IH by lia. unfold File.sizeAt. fold n.
    destruct (Z.eqb_spec i (n - 1)); lia.
Qed.

Lemma sum_sizes : foldr Z.add 0 (sizeAt <$> seqZ 0 n) = size.
Proof.
  pose proof n_nonneg. pose proof n_ceiling.
  destruct (Z.eq_dec n 0) as [E|E].
  - rewrite E, seqZ_nil by lia. cbn [fmap list_fmap foldr]. lia.
  - rewrite <- (Z2Nat.id n) at 1 by lia.
    rewrite sum_sizes_from; lia.
Qed.

End Chunker.

(** C5 (as amended).  For every readable file and every [chunkSize > 0]
    such that [fileSize + chunkSize - 1] does not exceed the largest
    [int64], [CreateManifest] returns a manifest with
    [ceil(fileSize / chunkSize)] chunks whose sizes sum to [fileSize]; every
    chunk but the last has size [chunkSize], the size of the last one lies
    in (0, chunkSize], and there are no chunks exactly when the file is
    empty. *)
Theorem CreateManifest_chunk_layout (fs : FS) (filePath : string)
        (f : list byte) (chunkSize : Z) :
  fs !! filePath = Some f ->
  0 < chunkSize ->
  Z.of_nat (length f) + chunkSize - 1 <= MaxInt64 ->
  exists m : File.Manifest,
    File.CreateManifest fs filePath chunkSize = Ok m
    /\ File.FileSize m = Z.of_nat (length f)
    /\ File.ChunkSize m = chunkSize
    /\ (Z.of_nat (length (File.Chunks m)) - 1) * chunkSize < File.FileSize m
       <= Z.of_nat (length (File.Chunks m)) * chunkSize
    /\ foldr Z.add 0 (File.Size <$> File.Chunks m) = File.FileSize m
    /\ (forall (i : nat) (c : File.Chunk),
          File.Chunks m !! i = Some c ->
          (S i < length (File.Chunks m))%nat ->
          File.Size c = chunkSize)
    /\ (forall c : File.Chunk,
          last (File.Chunks m) = Some c -> 0 < File.Size c <= chunkSize)
    /\ (length (File.Chunks m) = 0%nat <-> File.FileSize m = 0).
Proof.
  intros Hf Hcs Hno.
  eexists. split; [apply CreateManifest_exact; eassumption|].
  cbn [File.FileSize File.ChunkSize File.Chunks].
  pose proof (n_ceiling f chunkSize Hcs) as Hceil.
  pose proof (n_nonneg f chunkSize Hcs) as Hn.
  set (size := Z.of_nat (length f)) in *.
  set (n := File.numChunksExact size chunkSize) in *.
  assert (Hlen : Z.of_nat (length (File.chunkAt f chunkSize <$> seqZ 0 n)) = n).
  { rewrite length_fmap, length_seqZ. lia. }
  rewrite Hlen.
  split; [reflexivity|]. split; [reflexivity|]. split; [exact Hceil|].
  split.
  { rewrite <- list_fmap_compose.
    exact (sum_sizes f chunkSize Hcs). }
  split.
  { intros i c Hi Hlt.
    rewrite list_lookup_fmap in Hi.
    destruct (seqZ 0 n !! i) as [j|] eqn:Hj; [|discriminate].
    apply lookup_seqZ in Hj as [-> Hj]. injection Hi as <-.
    cbn [File.Size File.chunkAt]. unfold File.sizeAt. fold size n.
    destruct (Z.eqb_spec (0 + Z.of_nat i) (n - 1)); [lia | reflexivity]. }
  split.
  { intros c Hc.
    rewrite fmap_last in Hc.
    destruct (last (seqZ 0 n)) as [j|] eqn:Hj; [|discriminate].
    injection Hc as <-.
    rewrite last_lookup in Hj. apply lookup_seqZ in Hj as [-> Hj].
    cbn [File.Size File.chunkAt]. fold size.
    apply (sizeAt_bounds f chunkSize Hcs). fold size n. lia. }
  split; intros H0; nia.
Qed.

(** A witness of [CreateManifest_chunk_layout]: a file of three bytes in
    chunks of two. *)
Lemma CreateManifest_chunk_layout_witness :
  exists m : File.Manifest,
    File.CreateManifest {[ "f"%string := bytes_of "abc" ]} "f" 2 = Ok m
    /\ File.FileSize m = 3
    /\ File.ChunkSize m = 2
    /\ (Z.of_nat (length (File.Chunks m)) - 1) * 2 < File.FileSize m
       <= Z.of_nat (length (File.Chunks m)) * 2
    /\ foldr Z.add 0 (File.Size <$> File.Chunks m) = File.FileSize m
    /\ (forall (i : nat) (c : File.Chunk),
          File.Chunks m !! i = Some c ->
          (S i < length (File.Chunks m))%nat ->
          File.Size c = 2)
    /\ (forall c : File.Chunk,
          last (File.Chunks m) = Some c -> 0 < File.Size c <= 2)
    /\ (length (File.Chunks m) = 0%nat <-> File.FileSize m = 0).
Proof.
  apply (CreateManifest_chunk_layout {[ "f"%string := bytes_of "abc" ]} "f"
           (bytes_of "abc") 2).
  - reflexivity.
  - lia.
  - vm_compute. discriminate.
Defined.

(** C5 as stated fails: with a chunk size of [MaxInt64] and a file of two
    bytes the sum [fileSize + chunkSize - 1] wraps around, the number of
    chunks is negative, and [make] panics: there is no manifest. *)
Lemma CreateManifest_chunk_layout_overflow :
  0 < MaxInt64
  /\ File.CreateManifest {[ "f"%string := bytes_of "ab" ]} "f" MaxInt64
     = Panic "makeslice: len out of range"
  /\ ~ exists m : File.Manifest,
         File.CreateManifest {[ "f"%string := bytes_of "ab" ]} "f" MaxInt64 = Ok m.
Proof.
  assert (H : File.CreateManifest {[ "f"%string := bytes_of "ab" ]} "f" MaxInt64
              = Panic "makeslice: len out of range") by (vm_compute; reflexivity).
  split; [reflexivity|]. split; [exact H|].
  intros [m Hm]. rewrite H in Hm. discriminate.
Qed.

(** What the chunker hashes: for every chunk index [i] of the manifest, the
    hash is the digest of the file from offset [i * size of chunk i] to the
    END of the file, not of the [size] bytes of the chunk. *)
Lemma CreateManifest_chunk_hash (fs : FS) (filePath : string)
      (f : list byte) (chunkSize : Z) :
  fs !! filePath = Some f ->
  0 < chunkSize ->
  Z.of_nat (length f) + chunkSize - 1 <= MaxInt64 ->
  exists m : File.Manifest,
    File.CreateManifest fs filePath chunkSize = Ok m
    /\ forall (i : nat) (c : File.Chunk),
         File.Chunks m !! i = Some c ->
         File.Hash c = sha256_hex (drop (Z.to_nat (Z.of_nat i * File.Size c)) f).
Proof.
  intros Hf Hcs Hno.
  eexists. split; [apply CreateManifest_exact; eassumption|].
  cbn [File.Chunks]. intros i c Hi.
  rewrite list_lookup_fmap in Hi.
  destruct (seqZ 0 _ !! i) as [j|] eqn:Hj; [|discriminate].
  apply lookup_seqZ in Hj as [-> Hj]. injection Hi as <-.
  reflexivity.
Qed.

(** In particular the hash of chunk 0 is the digest of the whole file,
    the [fileHash] of the manifest, however many chunks there are. *)
Lemma CreateManifest_first_hash_is_fileHash (fs : FS) (filePath : string)
      (f : list byte) (chunkSize : Z) :
  fs !! filePath = Some f ->
  0 < chunkSize ->
  Z.of_nat (length f) + chunkSize - 1 <= MaxInt64 ->
  exists m : File.Manifest,
    File.CreateManifest fs filePath chunkSize = Ok m
    /\ forall c : File.Chunk,
         File.Chunks m !! 0%nat = Some c -> File.Hash c = File.FileHash m.
Proof.
  intros Hf Hcs Hno.
  destruct (CreateManifest_chunk_hash fs filePath f chunkSize Hf Hcs Hno)
    as (m & Hm & Hhash).
  exists m. split; [exact Hm|]. intros c Hc.
  rewrite (Hhash 0%nat c Hc).
  rewrite (CreateManifest_exact f chunkSize Hcs Hno fs filePath Hf) in Hm.
  injection Hm as <-. reflexivity.
Qed.

(** C2 (the code departs from it).  A file of the two bytes "ab" in chunks
    of one byte: the hash of chunk 0 is the digest of "ab", the whole file,
    and not the digest of "a", the byte range [0, 1) of the chunk. *)
Theorem CreateManifest_hash_runs_to_end_of_file :
  exists (m : File.Manifest) (c0 c1 : File.Chunk),
    File.CreateManifest {[ "f"%string := bytes_of "ab" ]} "f" 1 = Ok m
    /\ File.Chunks m = [c0; c1]
    /\ File.Size c0 = 1
    /\ File.Hash c0 = sha256_hex (bytes_of "ab")
    /\ File.Hash c0 <> sha256_hex (File.byteRange (bytes_of "ab") (0 * 1) (File.Size c0))
    /\ File.VerifyChunk c0 (File.byteRange (bytes_of "ab") (0 * 1) (File.Size c0)) = false.
Proof.
  eexists _, _, _.
  split; [vm_compute; reflexivity|].
  split; [reflexivity|].
  split; [reflexivity|].
  split; [vm_compute; reflexivity|].
  split; [vm_compute; discriminate|].
  vm_compute; reflexivity.
Qed.

(** The offset of the last chunk is computed from the size of the last
    chunk instead of [chunkSize]: for "abc" in chunks of two bytes, chunk 1
    is hashed from offset [1 * 1] (the bytes "bc"), not from offset
    [1 * 2] (the byte "c"). *)
Example CreateManifest_last_chunk_offset :
  exists (m : File.Manifest) (c0 c1 : File.Chunk),
    File.CreateManifest {[ "f"%string := bytes_of "abc" ]} "f" 2 = Ok m
    /\ File.Chunks m = [c0; c1]
    /\ File.Size c1 = 1
    /\ File.Hash c1 = sha256_hex (bytes_of "bc")
    /\ File.Hash c1 <> sha256_hex (bytes_of "c").
Proof.
  eexists _, _, _.
  split; [vm_compute; reflexivity|].
  split; [reflexivity|].
  split; [reflexivity|].
  split; [vm_compute; reflexivity|].
  vm_compute; discriminate.
Qed.

(** ** The chunk store *)

Lemma offsetLoop_exact (n : nat) (size : Z) :
  forall offset,
    0 <= offset -> 0 <= size -> offset + Z.of_nat n * size <= MaxInt64 ->
    File.offsetLoop n size offset = offset + Z.of_nat n * size.
Proof.
  induction n as [|n IH]; intros offset Ho Hs Hb; cbn [File.offsetLoop]; [lia|].
  assert (Hm : MinInt64 = - 2 ^ 63) by reflexivity.
  rewrite wrap64_id by nia.
  rewrite IH by nia. lia.
Qed.

(** [GetChunk] seeks to [len(chunk.Hash) * chunk.Size]; no chunk index
    enters the computation.  For a chunk that carries a SHA-256 digest in
    hexadecimal this is [64 * chunk.Size]. *)
Lemma GetChunk_offset (fs : FS) (filePath : string) (f : list byte)
      (chunk : File.Chunk) (data : list byte) :
  fs !! filePath = Some f ->
  File.Hash chunk = sha256_hex data ->
  0 <= File.Size chunk ->
  64 * File.Size chunk <= MaxInt64 ->
  File.GetChunk fs filePath chunk
  = match ReadFull (drop (Z.to_nat (64 * File.Size chunk)) f)
                   (Z.to_nat (File.Size chunk)) with
    | inl e => Err e
    | inr d => if String.eqb (sha256_hex d) (File.Hash chunk) then Ok d
               else Err File.hashFailed
    end.
Proof.
  intros Hf Hh Hs Hb.
  assert (Hoff : File.offsetLoop (String.length (File.Hash chunk)) (File.Size chunk) 0
                 = 64 * File.Size chunk).
  { rewrite Hh, sha256_hex_length, offsetLoop_exact by lia. lia. }
  unfold File.GetChunk. rewrite Hf. cbv zeta. rewrite Hoff.
  destruct (Z.ltb_spec (64 * File.Size chunk) 0); [lia|].
  destruct (Z.ltb_spec (File.Size chunk) 0); [lia|].
  reflexivity.
Qed.

(** C1 (the code departs from it).  The file "abc" and its manifest for
    the default chunk size: one chunk, of index 0 and size 3.  [GetChunk]
    does not read at offset [0 * chunkSize = 0]: it seeks to 192, which is
    [len(chunk.Hash) * chunk.Size], reads nothing and fails with [io.EOF],
    where the chunk-read operation of the specification returns the three
    bytes. *)
Theorem GetChunk_offset_ignores_index :
  exists (m : File.Manifest) (chunk : File.Chunk),
    File.CreateManifest {[ "f"%string := bytes_of "abc" ]} "f" File.DefaultChunkSize = Ok m
    /\ File.Chunks m !! 0%nat = Some chunk
    /\ File.Size chunk = 3
    /\ File.offsetLoop (String.length (File.Hash chunk)) (File.Size chunk) 0 = 192
    /\ 0 * File.ChunkSize m = 0
    /\ File.GetChunk {[ "f"%string := bytes_of "abc" ]} "f" chunk = Err EOF
    /\ File.ReadChunk {[ "f"%string := bytes_of "abc" ]} "f" m 0 = Ok (bytes_of "abc").
Proof.
  eexists _, _.
  split; [vm_compute; reflexivity|].
  split; [reflexivity|].
  split; [reflexivity|].
  split; [vm_compute; reflexivity|].
  split; [reflexivity|].
  split; vm_compute; reflexivity.
Qed.

(** ** The download *)

Section Download.
Import File Peer.

Variable env : Env.
Variable peerAddress : string.
Variable peerPort : Z.

Lemma requests_app (t1 t2 : list Event) :
  requests (t1 ++ t2) = requests t1 ++ requests t2.
Proof. apply omap_app. Qed.

Lemma dials_app (t1 t2 : list Event) : dials (t1 ++ t2) = dials t1 ++ dials t2.
Proof. apply omap_app. Qed.

(** Running the deferred calls closes connections and nothing else. *)
Lemma runDefers_spec (defers : list nat) :
  forall w,
    outFile (runDefers defers w) = outFile w
    /\ dialled (runDefers defers w) = dialled w
    /\ trace (runDefers defers w) = trace w ++ (EvConnClose <$> defers).
Proof.
  induction defers as [|c defers IH]; intros w; cbn [runDefers fold_left fmap list_fmap].
  - rewrite app_nil_r. auto.
  - destruct (IH (emit (EvConnClose c) w)) as (H1 & H2 & H3).
    unfold runDefers in *. rewrite H1, H2, H3.
    cbn [emit outFile dialled trace]. rewrite <- app_assoc. auto.
Qed.

Lemma requests_closes (defers : list nat) :
  requests (EvConnClose <$> defers) = [].
Proof. induction defers; [reflexivity | assumption]. Qed.

Lemma dials_closes (defers : list nat) : dials (EvConnClose <$> defers) = [].
Proof. induction defers; [reflexivity | assumption]. Qed.

Lemma ReadFullConn_length (stream : list byte * bool) (n : nat) (data : list byte) :
  ReadFullConn stream n = inr data ->
  data = take n (fst stream) /\ length data = n.
Proof.
  unfold ReadFullConn.
  destruct (Nat.leb_spec n (length (fst stream))) as [Hle|Hgt].
  - intros [= <-]. split; [reflexivity|]. rewrite length_take. lia.
  - destruct (snd stream); [discriminate|].
    destruct (length (fst stream) =? 0)%nat; discriminate.
Qed.

(** The loop over [l1 ++ l2] is the loop over [l1] followed, when that
    one reaches its end, by the loop over [l2]. *)
Lemma downloadLoop_app (l1 l2 : list Chunk) :
  forall i defers w,
    downloadLoop env peerAddress peerPort (l1 ++ l2) i defers w
    = match downloadLoop env peerAddress peerPort l1 i defers w with
      | (Ok _, defers1, w1) =>
          downloadLoop env peerAddress peerPort l2 (i + Z.of_nat (length l1)) defers1 w1
      | failed => failed
      end.
Proof.
  induction l1 as [|chunk l1 IH]; intros i defers w.
  - cbn [app downloadLoop length]. rewrite Z.add_0_r. reflexivity.
  - cbn [app downloadLoop length].
    destruct (dialOk env (dialled w)); [|reflexivity]. cbn [negb].
    destruct (sendOk env (dialled w)); [|reflexivity]. cbn [negb].
    destruct (Size chunk <? 0); [reflexivity|].
    destruct (ReadFullConn _ _) as [e|chunkData]; [reflexivity|].
    destruct (VerifyChunk chunk chunkData); [|reflexivity]. cbn [negb].
    destruct (writeOk env i); [|reflexivity]. cbn [negb].
    rewrite IH. replace (i + 1 + Z.of_nat (length l1))
      with (i + Z.of_nat (S (length l1))) by lia.
    reflexivity.
Qed.

(** A loop that reaches its end has requested every chunk once, in
    ascending order, each on a connection of its own to the one peer, and
    has appended to the output, in that order, data that passed
    [VerifyChunk] and have the sizes of the manifest. *)
Lemma downloadLoop_ok (chunks : list Chunk) :
  forall i defers w defers' w',
    downloadLoop env peerAddress peerPort chunks i defers w = (Ok tt, defers', w') ->
    requests (trace w') = requests (trace w) ++ seqZ i (Z.of_nat (length chunks))
    /\ dials (trace w')
       = dials (trace w) ++ replicate (length chunks) (peerAddress, peerPort)
    /\ dialled w' = (dialled w + length chunks)%nat
    /\ exists datas : list (list byte),
         outFile w' = outFile w ++ concat datas
         /\ Forall2 (fun c data => VerifyChunk c data = true
                                   /\ Z.of_nat (length data) = Size c)
                    chunks datas.
Proof.
  induction chunks as [|chunk chunks IH]; intros i defers w defers' w' H.
  - cbn [downloadLoop] in H. injection H as <- <-.
    cbn [length]. rewrite seqZ_nil by lia. cbn [replicate].
    rewrite !app_nil_r, Nat.add_0_r. repeat split.
    exists []. cbn [concat]. rewrite app_nil_r. split; constructor.
  - cbn [downloadLoop] in H.
    destruct (dialOk env (dialled w)); [|discriminate]. cbn [negb] in H.
    destruct (sendOk env (dialled w)); [|discriminate]. cbn [negb] in H.
    destruct (Z.ltb_spec (Size chunk) 0) as [|Hsize]; [discriminate|].
    destruct (ReadFullConn _ _) as [e|chunkData] eqn:Hread; [discriminate|].
    destruct (VerifyChunk chunk chunkData) eqn:Hverify; [|discriminate].
    cbn [negb] in H.
    destruct (writeOk env i); [|discriminate]. cbn [negb] in H.
    apply IH in H as (Hreq & Hdial & Hn & datas & Hout & Hall).
    cbn [append emit connect trace outFile dialled] in Hreq, Hdial, Hn, Hout.
    rewrite !requests_app in Hreq. rewrite !dials_app in Hdial.
    cbn in Hreq, Hdial. rewrite app_nil_r in Hreq, Hdial.
    apply ReadFullConn_length in Hread as [_ Hlen].
    repeat split.
    + rewrite Hreq, <- !app_assoc. f_equal. cbn [length].
      rewrite (seqZ_cons i) by lia. cbn [app]. do 2 f_equal; lia.
    + rewrite Hdial, <- !app_assoc. reflexivity.
    + cbn [length]. lia.
    + exists (chunkData :: datas). split.
      * rewrite Hout, <- app_assoc. reflexivity.
      * constructor; [split; [assumption | lia] | assumption].
Qed.

End Download.

(** C4.  A download that has fetched, verified and appended the chunks
    before index [k] and receives for chunk [k] data that fail
    [VerifyChunk] returns at once with the error "chunk hash verification
    failed".  The output file holds the verified data of the chunks before
    [k] and nothing of chunk [k]; the requests made are those for the
    indices 0, ..., k, once each and in this order, so that the failure is
    that of the last index requested, no later chunk is fetched and none is
    asked again; every connection was dialled to the one peer given. *)
Theorem DownloadFile_aborts_on_hash_mismatch
        (env : Peer.Env) (manifest : File.Manifest) (peerAddress : string)
        (peerPort : Z) (outputPath : string) (w0 : Peer.World)
        (pre post : list File.Chunk) (chunk : File.Chunk)
        (defers1 : list nat) (w1 : Peer.World) (chunkData : list byte) :
  File.Chunks manifest = pre ++ chunk :: post ->
  Peer.mkdirOk env = true ->
  Peer.createOk env = true ->
  Peer.downloadLoop env peerAddress peerPort pre 0 [] (Peer.truncate outputPath w0)
  = (Ok tt, defers1, w1) ->
  Peer.dialOk env (Peer.dialled w1) = true ->
  Peer.sendOk env (Peer.dialled w1) = true ->
  0 <= File.Size chunk ->
  Peer.ReadFullConn (Peer.reply env (Peer.dialled w1) (Z.of_nat (length pre)))
                    (Z.to_nat (File.Size chunk)) = inr chunkData ->
  File.VerifyChunk chunk chunkData = false ->
  exists w' : Peer.World,
    Peer.DownloadFile env manifest peerAddress peerPort outputPath w0
    = (Err (Errorf "chunk hash verification failed"), w')
    /\ Peer.outFile w' = Peer.outFile w1
    /\ (exists datas : list (list byte),
          Peer.outFile w' = concat datas
          /\ Forall2 (fun c data => File.VerifyChunk c data = true
                                    /\ Z.of_nat (length data) = File.Size c)
                     pre datas)
    /\ Peer.requests (Peer.trace w')
       = Peer.requests (Peer.trace w0) ++ seqZ 0 (Z.of_nat (length pre) + 1)
    /\ last (Peer.requests (Peer.trace w')) = Some (Z.of_nat (length pre))
    /\ Peer.dials (Peer.trace w')
       = Peer.dials (Peer.trace w0) ++ replicate (S (length pre)) (peerAddress, peerPort).
Proof.
  intros Hchunks Hmk Hcr Hpre Hdial Hsend Hsize Hread Hverify.
  unfold Peer.DownloadFile. rewrite Hmk, Hcr. cbn [negb].
  rewrite Hchunks, downloadLoop_app, Hpre.
  cbn [Peer.downloadLoop]. rewrite Hdial, Hsend. cbn [negb].
  destruct (Z.ltb_spec (File.Size chunk) 0); [lia|].
  rewrite Z.add_0_l.
  cbn [Peer.connect Peer.emit Peer.dialled Peer.trace Peer.outFile].
  rewrite Hread, Hverify. cbn [negb].
  eexists. split; [reflexivity|].
  apply downloadLoop_ok in Hpre as (Hreq & Hdials & _ & datas & Hout & Hall).
  cbn [Peer.truncate Peer.trace Peer.outFile] in Hreq, Hdials, Hout.
  rewrite requests_app in Hreq. rewrite dials_app in Hdials.
  cbn in Hreq, Hdials. rewrite app_nil_r in Hreq, Hdials.
  match goal with
  | |- context [Peer.runDefers ?d ?w] =>
      destruct (runDefers_spec d w) as (Ho & _ & Ht)
  end.
  cbn [Peer.emit Peer.connect Peer.trace Peer.outFile app] in *.
  assert (Hrequests :
            Peer.requests
              ((((Peer.trace w1 ++ [Peer.EvDial (Peer.dialled w1) peerAddress peerPort])
                   ++ [Peer.EvRequest (Peer.dialled w1) (Z.of_nat (length pre))])
                  ++ (Peer.EvConnClose <$> Peer.dialled w1 :: defers1)) ++ [Peer.EvFileClose])
            = Peer.requests (Peer.trace w0) ++ seqZ 0 (Z.of_nat (length pre) + 1)).
  { rewrite !requests_app, requests_closes, Hreq. cbn.
    rewrite !app_nil_r, <- app_assoc. f_equal.
    rewrite seqZ_app by lia. f_equal. }
  split; [exact Ho|].
  split; [exists datas; rewrite Ho, Hout; split; [reflexivity | exact Hall]|].
  rewrite Ht.
  split; [exact Hrequests|].
  split.
  - rewrite Hrequests, seqZ_app by lia.
    rewrite app_assoc. apply last_snoc.
  - rewrite replicate_S_end, !dials_app, dials_closes, Hdials. cbn.
    rewrite !app_nil_r, <- app_assoc. reflexivity.
Qed.

(** A witness of [DownloadFile_aborts_on_hash_mismatch]: two chunks of one
    byte; the peer sends "a" for chunk 0 and, for chunk 1, "X" where the
    manifest has the digest of "b". *)
Lemma DownloadFile_aborts_on_hash_mismatch_witness :
  let env := {| Peer.dialOk := fun _ => true;
                Peer.sendOk := fun _ => true;
                Peer.reply := fun _ i => (bytes_of (if i =? 0 then "a" else "X"), false);
                Peer.mkdirOk := true;
                Peer.createOk := true;
                Peer.writeOk := fun _ => true |} in
  let c0 := {| File.Hash := sha256_hex (bytes_of "a"); File.Size := 1 |} in
  let c1 := {| File.Hash := sha256_hex (bytes_of "b"); File.Size := 1 |} in
  let manifest := {| File.FileName := "f"; File.FileSize := 2; File.ChunkSize := 1;
                     File.Chunks := [c0; c1];
                     File.FileHash := sha256_hex (bytes_of "ab") |} in
  exists w' : Peer.World,
    Peer.DownloadFile env manifest "localhost" 9000 "downloads/f" Peer.world0
    = (Err (Errorf "chunk hash verification failed"), w')
    /\ Peer.outFile w' = bytes_of "a"
    /\ Peer.requests (Peer.trace w') = [0; 1]
    /\ last (Peer.requests (Peer.trace w')) = Some 1.
Proof.
  intros env c0 c1 manifest.
  destruct (DownloadFile_aborts_on_hash_mismatch
              env manifest "localhost" 9000 "downloads/f" Peer.world0
              [c0] [] c1 [0%nat]
              {| Peer.outFile := bytes_of "a"; Peer.dialled := 1;
                 Peer.trace := [Peer.EvCreate "downloads/f";
                                Peer.EvDial 0 "localhost" 9000;
                                Peer.EvRequest 0 0;
                                Peer.EvAppend (bytes_of "a")] |}
              (bytes_of "X"))
    as (w' & Hrun & Hout & _ & Hreq & Hlast & _).
  - reflexivity.
  - reflexivity.
  - reflexivity.
  - vm_compute. reflexivity.
  - reflexivity.
  - reflexivity.
  - vm_compute. discriminate.
  - vm_compute. reflexivity.
  - vm_compute. reflexivity.
  - exists w'. split; [exact Hrun|]. split; [exact Hout|].
    split; [exact Hreq | exact Hlast].
Defined.

(** ** Connections during a download *)

Lemma peakOpen_ge_length (tr : list Peer.Event) :
  forall open, (length open <= Peer.peakOpen open tr)%nat.
Proof. destruct tr; intros open; cbn [Peer.peakOpen]; lia. Qed.

Lemma peakOpen_app_ge (t1 t2 : list Peer.Event) :
  forall open,
    (length (fold_left Peer.openAfter t1 open) <= Peer.peakOpen open (t1 ++ t2))%nat.
Proof.
  induction t1 as [|e t1 IH]; intros open; cbn [fold_left app].
  - apply peakOpen_ge_length.
  - cbn [Peer.peakOpen]. specialize (IH (Peer.openAfter open e)). lia.
Qed.

(** The loop of [DownloadFile] closes no connection: every connection it
    dials is still open when it ends, however it ends, and its [Close] is
    among the deferred calls. *)
Lemma downloadLoop_opens (env : Peer.Env) (peerAddress : string) (peerPort : Z)
      (chunks : list File.Chunk) :
  forall i defers w r defers' w',
    Peer.downloadLoop env peerAddress peerPort chunks i defers w = (r, defers', w') ->
    exists (evs : list Peer.Event) (new : list nat),
      Peer.trace w' = Peer.trace w ++ evs
      /\ defers' = new ++ defers
      /\ (forall open, fold_left Peer.openAfter evs open = new ++ open)
      /\ (r = Ok tt -> length new = length chunks).
Proof.
  induction chunks as [|chunk chunks IH]; intros i defers w r defers' w' H;
    cbn [Peer.downloadLoop] in H.
  - injection H as <- <- <-. exists [], []. rewrite app_nil_r. auto.
  - destruct (Peer.dialOk env (Peer.dialled w)); cbn [negb] in H;
      [|injection H as <- <- <-;
        exists [Peer.EvDialFailed peerAddress peerPort], [];
        repeat split; auto; discriminate].
    assert (Hstop : forall e,
              (r, defers', w') =
              (e, Peer.dialled w :: defers,
               Peer.emit (Peer.EvRequest (Peer.dialled w) i)
                         (Peer.connect peerAddress peerPort w)) ->
              e <> Ok tt ->
              exists (evs : list Peer.Event) (new : list nat),
                Peer.trace w' = Peer.trace w ++ evs
                /\ defers' = new ++ defers
                /\ (forall open, fold_left Peer.openAfter evs open = new ++ open)
                /\ (r = Ok tt -> length new = length (chunk :: chunks))).
    { intros e [= -> -> ->] He.
      exists [Peer.EvDial (Peer.dialled w) peerAddress peerPort;
              Peer.EvRequest (Peer.dialled w) i], [Peer.dialled w].
      cbn [Peer.emit Peer.connect Peer.trace]. rewrite <- app_assoc.
      repeat split; auto. intros ->. contradiction. }
    destruct (Peer.sendOk env (Peer.dialled w)); cbn [negb] in H;
      [|injection H as <- <- <-;
        exists [Peer.EvDial (Peer.dialled w) peerAddress peerPort], [Peer.dialled w];
        repeat split; auto; discriminate].
    destruct (File.Size chunk <? 0); [apply (Hstop _ (eq_sym H)); discriminate|].
    destruct (Peer.ReadFullConn _ _) as [e|chunkData];
      [apply (Hstop _ (eq_sym H)); discriminate|].
    destruct (File.VerifyChunk chunk chunkData); cbn [negb] in H;
      [|apply (Hstop _ (eq_sym H)); discriminate].
    destruct (Peer.writeOk env i); cbn [negb] in H;
      [|apply (Hstop _ (eq_sym H)); discriminate].
    apply IH in H as (evs & new & Htr & Hd & Hopen & Hlen).
    exists ([Peer.EvDial (Peer.dialled w) peerAddress peerPort;
             Peer.EvRequest (Peer.dialled w) i;
             Peer.EvAppend chunkData] ++ evs), (new ++ [Peer.dialled w]).
    cbn [Peer.append Peer.emit Peer.connect Peer.trace] in Htr.
    repeat split.
    + rewrite Htr, <- !app_assoc. reflexivity.
    + rewrite Hd, <- app_assoc. reflexivity.
    + intros open. rewrite fold_left_app. cbn [fold_left Peer.openAfter].
      rewrite Hopen, <- app_assoc. reflexivity.
    + intros Hr. rewrite length_app, (Hlen Hr). cbn [length]. lia.
Qed.

(** A download that succeeds has had all its connections open at once: as
    many as the manifest has chunks. *)
Lemma DownloadFile_connections_accumulate
      (env : Peer.Env) (manifest : File.Manifest) (peerAddress : string)
      (peerPort : Z) (outputPath : string) (w w' : Peer.World) :
  Peer.DownloadFile env manifest peerAddress peerPort outputPath w = (Ok tt, w') ->
  exists evs : list Peer.Event,
    Peer.trace w' = Peer.trace w ++ evs
    /\ (length (File.Chunks manifest) <= Peer.peakOpen [] evs)%nat.
Proof.
  unfold Peer.DownloadFile.
  destruct (Peer.mkdirOk env); [|discriminate].
  destruct (Peer.createOk env); [|discriminate]. cbn [negb].
  destruct (Peer.downloadLoop _ _ _ _ _ _ _) as [[r defers] w1] eqn:Hloop.
  intros [= -> <-].
  apply downloadLoop_opens in Hloop as (evs & new & Htr & Hd & Hopen & Hlen).
  destruct (runDefers_spec defers w1) as (_ & _ & Ht).
  exists (([Peer.EvCreate outputPath] ++ evs)
          ++ ((Peer.EvConnClose <$> defers) ++ [Peer.EvFileClose])).
  cbn [Peer.emit Peer.trace]. rewrite Ht, Htr.
  cbn [Peer.truncate Peer.trace].
  split; [rewrite <- !app_assoc; reflexivity|].
  etransitivity; [|apply peakOpen_app_ge].
  rewrite fold_left_app. cbn [fold_left Peer.openAfter].
  rewrite Hopen, app_nil_r, (Hlen eq_refl). lia.
Qed.

(** C9 (the code departs from it).  A download of two chunks from a peer
    that serves them: the connection for chunk 1 is dialled while that for
    chunk 0 is still open, and both are closed only when [DownloadFile]
    returns, so two connections are open at once. *)
Theorem DownloadFile_keeps_connections_open :
  let env := {| Peer.dialOk := fun _ => true;
                Peer.sendOk := fun _ => true;
                Peer.reply := fun _ i => (bytes_of (if i =? 0 then "a" else "b"), false);
                Peer.mkdirOk := true;
                Peer.createOk := true;
                Peer.writeOk := fun _ => true |} in
  let manifest := {| File.FileName := "f"; File.FileSize := 2; File.ChunkSize := 1;
                     File.Chunks :=
                       [ {| File.Hash := sha256_hex (bytes_of "a"); File.Size := 1 |};
                         {| File.Hash := sha256_hex (bytes_of "b"); File.Size := 1 |} ];
                     File.FileHash := sha256_hex (bytes_of "ab") |} in
  exists w' : Peer.World,
    Peer.DownloadFile env manifest "localhost" 9000 "downloads/f" Peer.world0 = (Ok tt, w')
    /\ Peer.outFile w' = bytes_of "ab"
    /\ Peer.trace w'
       = [ Peer.EvCreate "downloads/f";
           Peer.EvDial 0 "localhost" 9000; Peer.EvRequest 0 0;
           Peer.EvAppend (bytes_of "a");
           Peer.EvDial 1 "localhost" 9000; Peer.EvRequest 1 1;
           Peer.EvAppend (bytes_of "b");
           Peer.EvConnClose 1; Peer.EvConnClose 0; Peer.EvFileClose ]
    /\ Peer.peakOpen [] (Peer.trace w') = 2%nat.
Proof.
  intros env manifest. eexists.
  split; [vm_compute; reflexivity|].
  split; [reflexivity|]. split; reflexivity.
Qed.

(** [DownloadChunk], for comparison, closes its connection before it
    returns: two fetches in a row never have two connections open. *)
Example DownloadChunk_closes_its_connection :
  let env := {| Peer.dialOk := fun _ => true;
                Peer.sendOk := fun _ => true;
                Peer.reply := fun _ i => (bytes_of (if i =? 0 then "a" else "b"), false);
                Peer.mkdirOk := true;
                Peer.createOk := true;
                Peer.writeOk := fun _ => true |} in
  let peer := {| Peer.Address := "localhost"; Peer.Port := 9000 |} in
  let '(_, w1) := Peer.DownloadChunk env peer 0 Peer.world0 in
  let '(_, w2) := Peer.DownloadChunk env peer 1 w1 in
  Peer.peakOpen [] (Peer.trace w2) = 1%nat.
Proof. vm_compute. reflexivity. Qed.

(** ** The chunk exchange *)

(** The serving side: a request whose index is outside the chunks of the
    manifest gets no payload, whatever reads the chunks. *)
Lemma handleConnection_out_of_range
      (getChunk : FS -> string -> File.Manifest -> Z -> result (list byte))
      (fs : FS) (filePath : string) (m : File.Manifest) (chunkIndex : Z) :
  File.CreateManifest fs filePath File.DefaultChunkSize = Ok m ->
  ~ (0 <= chunkIndex < Z.of_nat (length (File.Chunks m))) ->
  Peer.handleConnection getChunk fs filePath (Some chunkIndex)
  = Peer.NoPayload (Peer.InvalidIndex chunkIndex)
  /\ Peer.onWire (Peer.handleConnection getChunk fs filePath (Some chunkIndex)) = [].
Proof.
  intros Hm Hout. unfold Peer.handleConnection. rewrite Hm.
  destruct (Z.ltb_spec chunkIndex 0);
    destruct (Z.leb_spec (Z.of_nat (length (File.Chunks m))) chunkIndex);
    cbn [orb Peer.onWire]; auto; lia.
Qed.

(** The loop of [DownloadFile] treats a connection closed before
    [chunk.Size] bytes as a failure. *)
Lemma downloadLoop_short_read
      (env : Peer.Env) (peerAddress : string) (peerPort : Z)
      (chunk : File.Chunk) (rest : list File.Chunk) (i : Z)
      (defers : list nat) (w : Peer.World) :
  Peer.dialOk env (Peer.dialled w) = true ->
  Peer.sendOk env (Peer.dialled w) = true ->
  Z.of_nat (length (fst (Peer.reply env (Peer.dialled w) i))) < File.Size chunk ->
  exists (e : error) (w' : Peer.World),
    Peer.downloadLoop env peerAddress peerPort (chunk :: rest) i defers w
    = (Err (Wrapf "failed to read chunk data" e), Peer.dialled w :: defers, w')
    /\ Peer.outFile w' = Peer.outFile w.
Proof.
  intros Hdial Hsend Hshort. cbn [Peer.downloadLoop].
  rewrite Hdial, Hsend. cbn [negb].
  destruct (Z.ltb_spec (File.Size chunk) 0); [lia|].
  unfold Peer.ReadFullConn.
  destruct (Nat.leb_spec (Z.to_nat (File.Size chunk))
              (length (fst (Peer.reply env (Peer.dialled w) i)))); [lia|].
  destruct (snd _); [|destruct (_ =? _)%nat]; eexists _, _; split; reflexivity.
Qed.

(** [DownloadChunk] does not: when the connection is closed without a
    byte, it returns the empty slice and no error. *)
Lemma DownloadChunk_closed_without_payload
      (env : Peer.Env) (peer : Peer.Peer) (chunkIndex : Z) (w : Peer.World) :
  Peer.dialOk env (Peer.dialled w) = true ->
  Peer.sendOk env (Peer.dialled w) = true ->
  Peer.reply env (Peer.dialled w) chunkIndex = ([], false) ->
  fst (Peer.DownloadChunk env peer chunkIndex w) = Ok [].
Proof.
  intros Hdial Hsend Hreply. unfold Peer.DownloadChunk.
  rewrite Hdial, Hsend. cbn [negb]. unfold Peer.ReadAll.
  rewrite Hreply. reflexivity.
Qed.

(** C3 (the code departs from it).  A peer serves the file "abc", which
    has one chunk.  For the request of index 1 the server writes nothing
    and closes; [DownloadChunk] then returns the empty slice with a nil
    error, a zero-length chunk received with success.  The loop of
    [DownloadFile] on the same connection fails with [io.EOF]. *)
Theorem DownloadChunk_returns_empty_chunk :
  let fs : FS := {[ "f"%string := bytes_of "abc" ]} in
  let env := Peer.servingEnv File.ReadChunk fs "f" in
  let peer := {| Peer.Address := "localhost"; Peer.Port := 9000 |} in
  let chunk := {| File.Hash := sha256_hex (bytes_of "c"); File.Size := 1 |} in
  Peer.handleConnection File.ReadChunk fs "f" (Some 1)
  = Peer.NoPayload (Peer.InvalidIndex 1)
  /\ Peer.DownloadChunk env peer 1 Peer.world0
     = (Ok [],
        {| Peer.outFile := []; Peer.dialled := 1;
           Peer.trace := [Peer.EvDial 0 "localhost" 9000; Peer.EvRequest 0 1;
                          Peer.EvConnClose 0] |})
  /\ fst (fst (Peer.downloadLoop env "localhost" 9000 [chunk] 1 [] Peer.world0))
     = Err (Wrapf "failed to read chunk data" EOF).
Proof.
  intros fs env peer chunk.
  split; [vm_compute; reflexivity|].
  split; vm_compute; reflexivity.
Qed.

(** ** What the serving side serves *)

Lemma ReadFull_take (avail : list byte) (n : nat) (data : list byte) :
  ReadFull avail n = inr data -> data = take n avail.
Proof.
  unfold ReadFull. destruct (n <=? length avail)%nat; [congruence|].
  destruct (length avail =? 0)%nat; discriminate.
Qed.

(** The byte ranges of the chunks that [CreateManifest] makes, from the
    closed form of the chunks. *)
Lemma boundariesFrom_chunkAt (f : list byte) (chunkSize : Z) (k : nat) :
  forall i,
    File.boundariesFrom chunkSize i (File.chunkAt f chunkSize <$> seqZ i (Z.of_nat k))
    = (fun j => (j * chunkSize, File.sizeAt (Z.of_nat (length f)) chunkSize j))
        <$> seqZ i (Z.of_nat k).
Proof.
  induction k as [|k IH]; intros i.
  - rewrite seqZ_nil by lia. reflexivity.
  - rewrite (seqZ_cons i) by lia.
    replace (Z.pred (Z.of_nat (S k))) with (Z.of_nat k) by lia.
    rewrite !fmap_cons. cbn [File.boundariesFrom File.chunkAt File.Size].
    f_equal. replace (i + 1) with (Z.succ i) by lia. apply IH.
Qed.

Lemma numChunksExact_small (size chunkSize : Z) :
  0 <= size <= chunkSize -> 0 < chunkSize ->
  File.numChunksExact size chunkSize = if size =? 0 then 0 else 1.
Proof.
  intros Hs Hc. unfold File.numChunksExact.
  destruct (Z.eqb_spec size 0) as [->|Hne].
  - apply Z.div_small. lia.
  - symmetry. apply (Z.div_unique _ _ 1 (size - 1)); lia.
Qed.

(** Two chunk sizes cut a file at the same places exactly when the file
    fits into one chunk of either. *)
Lemma layouts_agree_iff (f : list byte) (c d : Z) :
  0 < c -> 0 < d -> c <> d ->
  let size := Z.of_nat (length f) in
  (fun j => (j * c, File.sizeAt size c j)) <$> seqZ 0 (File.numChunksExact size c)
  = (fun j => (j * d, File.sizeAt size d j)) <$> seqZ 0 (File.numChunksExact size d)
  <-> size <= Z.min c d.
Proof.
  intros Hc Hd Hne size.
  pose proof (n_ceiling f c Hc) as Hnc. pose proof (n_nonneg f c Hc) as Hc0.
  pose proof (n_ceiling f d Hd) as Hnd. pose proof (n_nonneg f d Hd) as Hd0.
  fold size in Hnc, Hnd, Hc0, Hd0.
  set (nc := File.numChunksExact size c) in *.
  set (nd := File.numChunksExact size d) in *.
  split.
  - intros Heq.
    assert (Hlen : nc = nd).
    { apply (f_equal length) in Heq. rewrite !length_fmap, !length_seqZ in Heq. lia. }
    destruct (Z_le_gt_dec size (Z.min c d)) as [|Hbig]; [assumption|exfalso].
    assert (H2 : 2 <= nc) by nia.
    apply (f_equal (fun l => l !! 1%nat)) in Heq.
    rewrite !list_lookup_fmap in Heq.
    rewrite (proj2 (lookup_seqZ 0 nc 1%nat 1)) in Heq by lia.
    rewrite (proj2 (lookup_seqZ 0 nd 1%nat 1)) in Heq by lia.
    cbn in Heq. injection Heq as Hoff _. lia.
  - intros Hsmall.
    assert (Hsz : 0 <= size) by (unfold size; lia).
    unfold nc, nd. rewrite !numChunksExact_small by lia.
    destruct (Z.eqb_spec size 0); [reflexivity|].
    rewrite !(seqZ_cons 0 1), !seqZ_nil by lia. cbn [fmap list_fmap].
    unfold File.sizeAt. rewrite !numChunksExact_small by lia.
    destruct (Z.eqb_spec size 0); [lia|]. cbn. reflexivity.
Qed.

(** The fields that [CreateManifest] sets before it chunks the file. *)
Lemma CreateManifest_ok_fields (fs : FS) (filePath : string) (f : list byte)
      (chunkSize : Z) (m : File.Manifest) :
  fs !! filePath = Some f ->
  File.CreateManifest fs filePath chunkSize = Ok m ->
  File.ChunkSize m = chunkSize /\ File.FileSize m = Z.of_nat (length f).
Proof.
  intros Hf. unfold File.CreateManifest. rewrite Hf.
  destruct (chunkSize =? 0); [discriminate|].
  destruct (_ <? 0); [discriminate|].
  destruct (File.chunkLoop _ _ _ _ _ _); [|discriminate|discriminate].
  intros [= <-]. split; reflexivity.
Qed.

(** When the size of the file is an [int64], the serving side has a
    manifest only if the number of chunks was computed without
    wrap-around: otherwise that number is negative and [make] panics. *)
Lemma CreateManifest_default_no_overflow (fs : FS) (filePath : string)
      (f : list byte) (m : File.Manifest) :
  fs !! filePath = Some f ->
  Z.of_nat (length f) <= MaxInt64 ->
  File.CreateManifest fs filePath File.DefaultChunkSize = Ok m ->
  Z.of_nat (length f) + File.DefaultChunkSize - 1 <= MaxInt64.
Proof.
  intros Hf Hmax Hm.
  destruct (Z_le_gt_dec (Z.of_nat (length f) + File.DefaultChunkSize - 1) MaxInt64)
    as [|Hover]; [assumption|exfalso].
  unfold File.CreateManifest in Hm. rewrite Hf in Hm.
  change (File.DefaultChunkSize =? 0) with false in Hm. cbv iota in Hm.
  set (size := Z.of_nat (length f)) in *.
  assert (Hneg : File.numChunksOf size File.DefaultChunkSize < 0).
  { unfold File.numChunksOf, File.DefaultChunkSize in *.
    assert (HM : MaxInt64 = 2 ^ 63 - 1) by reflexivity.
    replace (wrap64 (size + 1024 * 1024) - 1)
      with (wrap64 (size + 1024 * 1024) + -1) by lia.
    rewrite wrap64_wrap_add.
    assert (Hw : wrap64 (size + 1024 * 1024 + -1) = size + 1024 * 1024 - 1 - 2 ^ 64).
    { unfold wrap64.
      assert (Hmod : (size + 1024 * 1024 + -1 + 2 ^ 63) mod 2 ^ 64
                     = size + 1024 * 1024 + -1 + 2 ^ 63 - 2 ^ 64).
      { symmetry. apply (Z.mod_unique_pos _ _ 1); lia. }
      rewrite Hmod. lia. }
    rewrite Hw.
    set (a := 2 ^ 64 - (size + 1024 * 1024 - 1)).
    replace (size + 1024 * 1024 - 1 - 2 ^ 64) with (- a) by (unfold a; lia).
    rewrite Z.quot_opp_l by lia.
    rewrite Z.quot_div_nonneg by (unfold a; lia).
    assert (1 <= a / (1024 * 1024)).
    { apply Z.div_le_lower_bound; unfold a; lia. }
    assert (a / (1024 * 1024) <= 2 ^ 63).
    { apply Z.div_le_upper_bound; unfold a; lia. }
    rewrite wrap64_id by (unfold MinInt64; lia). lia. }
  destruct (Z.ltb_spec (File.numChunksOf size File.DefaultChunkSize) 0);
    [discriminate | lia].
Qed.

Lemma boundariesFrom_length (chunkSize : Z) (chunks : list File.Chunk) :
  forall i, length (File.boundariesFrom chunkSize i chunks) = length chunks.
Proof.
  induction chunks as [|c chunks IH]; intros i; cbn [File.boundariesFrom length];
    [reflexivity | rewrite IH; reflexivity].
Qed.

Lemma boundariesFrom_offset (chunkSize : Z) (chunks : list File.Chunk) :
  forall (i : Z) (j : nat) (b : Z * Z),
    File.boundariesFrom chunkSize i chunks !! j = Some b ->
    fst b = (i + Z.of_nat j) * chunkSize.
Proof.
  induction chunks as [|c chunks IH]; intros i j b; cbn [File.boundariesFrom];
    [discriminate|].
  destruct j as [|j].
  - intros [= <-]. cbn [fst]. f_equal. lia.
  - cbn [lookup list_lookup]. intros H. apply IH in H. rewrite H. f_equal. lia.
Qed.

(** The chunk boundaries of the manifest the serving side makes, in closed
    form. *)
Lemma boundaries_default (fs : FS) (filePath : string) (f : list byte)
      (m : File.Manifest) :
  fs !! filePath = Some f ->
  Z.of_nat (length f) <= MaxInt64 ->
  File.CreateManifest fs filePath File.DefaultChunkSize = Ok m ->
  File.ChunkSize m = File.DefaultChunkSize
  /\ Z.of_nat (length (File.Chunks m))
     = File.numChunksExact (Z.of_nat (length f)) File.DefaultChunkSize
  /\ File.boundaries m
     = (fun j => (j * File.DefaultChunkSize,
                  File.sizeAt (Z.of_nat (length f)) File.DefaultChunkSize j))
         <$> seqZ 0 (File.numChunksExact (Z.of_nat (length f)) File.DefaultChunkSize).
Proof.
  intros Hf Hmax Hm.
  pose proof (CreateManifest_default_no_overflow fs filePath f m Hf Hmax Hm) as Hno.
  assert (HD : 0 < File.DefaultChunkSize) by reflexivity.
  rewrite (CreateManifest_exact f File.DefaultChunkSize HD Hno fs filePath Hf) in Hm.
  injection Hm as <-.
  pose proof (n_nonneg f File.DefaultChunkSize HD) as Hn.
  unfold File.boundaries. cbn [File.Chunks File.ChunkSize].
  split; [reflexivity|]. split.
  - rewrite length_fmap, length_seqZ. lia.
  - rewrite <- (Z2Nat.id (File.numChunksExact _ _)) by exact Hn.
    rewrite boundariesFrom_chunkAt. reflexivity.
Qed.

(** C10 (as amended).  For every request to serve a file, the serving
    peer makes the manifest of the file on disk with the chunk size
    1,048,576.  The indices it accepts are those below
    [ceil(fileSize / 1048576)]; for an accepted index it hands this manifest
    and the index to the chunk reader and sends what the reader returns.
    The manifest's chunk size is the constant, and the byte range of each of
    its chunks, [index * 1048576, + size of the chunk), is a function of the
    size of the file and the constant: two files of one size have the same
    ranges.  The manifest of the requester is no input of the serving side.
    A requester whose manifest was made of the same file with another chunk
    size [c] has other chunk boundaries whenever the file is larger than
    [min c 1048576] bytes. *)
Theorem handleConnection_uses_DefaultChunkSize
        (getChunk : FS -> string -> File.Manifest -> Z -> result (list byte))
        (fs : FS) (filePath : string) (f : list byte) (m : File.Manifest)
        (chunkIndex : Z) :
  fs !! filePath = Some f ->
  Z.of_nat (length f) <= MaxInt64 ->
  File.CreateManifest fs filePath File.DefaultChunkSize = Ok m ->
  let size := Z.of_nat (length f) in
  File.DefaultChunkSize = 1048576
  /\ File.ChunkSize m = File.DefaultChunkSize
  /\ (size = 0 <-> length (File.Chunks m) = 0%nat)
  /\ (Z.of_nat (length (File.Chunks m)) - 1) * File.DefaultChunkSize < size
     <= Z.of_nat (length (File.Chunks m)) * File.DefaultChunkSize
  /\ Peer.handleConnection getChunk fs filePath (Some chunkIndex)
     = (if (chunkIndex <? 0)
           || (File.numChunksExact size File.DefaultChunkSize <=? chunkIndex)
        then Peer.NoPayload (Peer.InvalidIndex chunkIndex)
        else match getChunk fs filePath m chunkIndex with
             | Ok chunkData => Peer.Payload chunkData
             | Err e => Peer.NoPayload (Peer.ChunkError e)
             | Panic msg => Peer.NoPayload (Peer.ChunkPanic msg)
             end)
  /\ File.boundaries m
     = (fun j => (j * File.DefaultChunkSize, File.sizeAt size File.DefaultChunkSize j))
         <$> seqZ 0 (File.numChunksExact size File.DefaultChunkSize)
  /\ (forall (fs2 : FS) (filePath2 : string) (f2 : list byte) (m2 : File.Manifest),
        fs2 !! filePath2 = Some f2 ->
        length f2 = length f ->
        File.CreateManifest fs2 filePath2 File.DefaultChunkSize = Ok m2 ->
        File.boundaries m2 = File.boundaries m)
  /\ (forall (c : Z) (m' : File.Manifest),
        0 < c -> c <> File.DefaultChunkSize ->
        File.CreateManifest fs filePath c = Ok m' ->
        Z.min c File.DefaultChunkSize < size ->
        File.boundaries m' <> File.boundaries m).
Proof.
  intros Hf Hmax Hm size.
  assert (HD : 0 < File.DefaultChunkSize) by reflexivity.
  destruct (boundaries_default fs filePath f m Hf Hmax Hm) as (Hcs & Hlen & Hb).
  pose proof (n_ceiling f File.DefaultChunkSize HD) as Hceil.
  pose proof (n_nonneg f File.DefaultChunkSize HD) as Hn.
  fold size in Hlen, Hb, Hceil, Hn.
  set (n := File.numChunksExact size File.DefaultChunkSize) in *.
  split; [reflexivity|]. split; [exact Hcs|].
  split; [split; intros H0; nia|].
  split; [rewrite Hlen; exact Hceil|].
  split.
  { unfold Peer.handleConnection. rewrite Hm, Hlen. reflexivity. }
  split; [exact Hb|].
  split.
  { intros fs2 filePath2 f2 m2 Hf2 Hsame Hm2.
    destruct (boundaries_default fs2 filePath2 f2 m2 Hf2 ltac:(rewrite Hsame; exact Hmax) Hm2)
      as (_ & _ & Hb2).
    rewrite Hb2, Hb, Hsame. reflexivity. }
  intros c m' Hc Hne Hm' Hbig Heq.
  destruct (CreateManifest_ok_fields fs filePath f c m' Hf Hm') as [Hcs' _].
  assert (Hlen' : length (File.Chunks m') = Z.to_nat n).
  { apply (f_equal length) in Heq. unfold File.boundaries in Heq at 1.
    rewrite boundariesFrom_length, Hb, length_fmap, length_seqZ in Heq. exact Heq. }
  destruct (Z_le_gt_dec 2 n) as [H2|H1].
  - (* the second chunk starts at [c] on one side, at 1048576 on the other *)
    apply (f_equal (fun l => l !! 1%nat)) in Heq.
    rewrite Hb, list_lookup_fmap in Heq.
    rewrite (proj2 (lookup_seqZ 0 n 1%nat 1)) in Heq by lia.
    cbn [fmap option_fmap option_map] in Heq.
    unfold File.boundaries in Heq.
    apply boundariesFrom_offset in Heq. cbn [fst] in Heq.
    rewrite Hcs' in Heq. lia.
  - (* one chunk on the serving side: the file exceeds [c], which cuts it *)
    assert (Hsmall : size <= File.DefaultChunkSize) by nia.
    assert (Hcsize : c < size) by lia.
    assert (Hnoc : size + c - 1 <= MaxInt64).
    { unfold File.DefaultChunkSize, MaxInt64 in *. lia. }
    rewrite (CreateManifest_exact f c Hc Hnoc fs filePath Hf) in Hm'.
    injection Hm' as <-. cbn [File.Chunks] in Hlen'.
    rewrite length_fmap, length_seqZ in Hlen'. fold size in Hlen'.
    pose proof (n_ceiling f c Hc) as Hceilc. fold size in Hceilc.
    pose proof (n_nonneg f c Hc) as Hnc. fold size in Hnc.
    assert (2 <= File.numChunksExact size c) by nia.
    lia.
Qed.

(** A witness of [handleConnection_uses_DefaultChunkSize]: the file "abc"
    on the serving side, and a requester with chunks of two bytes. *)
Lemma handleConnection_uses_DefaultChunkSize_witness :
  exists m : File.Manifest,
    File.CreateManifest {[ "f"%string := bytes_of "abc" ]} "f" File.DefaultChunkSize = Ok m
    /\ File.ChunkSize m = 1048576
    /\ File.boundaries m = [(0, 3)]
    /\ (forall m' : File.Manifest,
          File.CreateManifest {[ "f"%string := bytes_of "abc" ]} "f" 2 = Ok m' ->
          File.boundaries m' <> File.boundaries m).
Proof.
  eexists. split; [vm_compute; reflexivity|].
  match goal with
  | |- File.ChunkSize ?m = _ /\ _ =>
      destruct (handleConnection_uses_DefaultChunkSize
                  (fun _ _ _ _ => Err EOF)
                  {[ "f"%string := bytes_of "abc" ]} "f" (bytes_of "abc") m 0)
        as (HD & Hcs & _ & _ & _ & Hb & _ & Hlayout)
  end.
  - reflexivity.
  - vm_compute. discriminate.
  - vm_compute. reflexivity.
  - split; [rewrite Hcs; exact HD|]. split; [rewrite Hb; reflexivity|].
    intros m' Hm'. apply (Hlayout 2 m'); [lia | discriminate | exact Hm' | reflexivity].
Defined.

(** C10 as stated fails in its last clause: a requester whose manifest of
    the file "abc" was made with the chunk size 5 has the chunk boundaries
    of the serving side, the one chunk [0, 3), with the same hash. *)
Lemma other_chunkSize_same_boundaries :
  let fs : FS := {[ "f"%string := bytes_of "abc" ]} in
  exists m m' : File.Manifest,
    5 <> File.DefaultChunkSize
    /\ File.CreateManifest fs "f" File.DefaultChunkSize = Ok m
    /\ File.CreateManifest fs "f" 5 = Ok m'
    /\ File.boundaries m = [(0, 3)]
    /\ File.boundaries m' = File.boundaries m
    /\ File.Chunks m' = File.Chunks m.
Proof.
  intros fs. eexists _, _.
  split; [discriminate|].
  split; [vm_compute; reflexivity|].
  split; [vm_compute; reflexivity|].
  split; [reflexivity|].
  split; reflexivity.
Qed.

(** ** The registry *)

Section Registry.
Import Tracker.

Lemma samePeer_eq (p q : Peer) : samePeer p q = true <-> p = q.
Proof.
  unfold samePeer. rewrite andb_true_iff, String.eqb_eq, Z.eqb_eq.
  destruct p, q; cbn. split; [intros [-> ->]; reflexivity | intros [= -> ->]; auto].
Qed.

Lemma samePeer_sym (p q : Peer) : samePeer p q = samePeer q p.
Proof. unfold samePeer. rewrite String.eqb_sym, Z.eqb_sym. reflexivity. Qed.

Lemma samePeer_refl (p : Peer) : samePeer p p = true.
Proof. apply samePeer_eq. reflexivity. Qed.

(** The scan of [Announce] finds the peer exactly when the slice has an
    entry for it. *)
Lemma scan_filter (peer : Peer) (ps : list Peer) :
  existsb (fun p => samePeer p peer) ps = false
  <-> List.filter (samePeer peer) ps = [].
Proof.
  induction ps as [|q ps IH]; cbn [existsb List.filter]; [tauto|].
  rewrite (samePeer_sym q peer), orb_false_iff.
  destruct (samePeer peer q); [split; [intros [? _] | intros ?]; discriminate|].
  rewrite IH. tauto.
Qed.

Lemma Announce_state (t : Tracker) (r : Request) :
  fst (Announce t r) = t
  \/ exists req : AnnounceRequest,
       Method r = "POST"%string /\ Body r = Some req
       /\ let peer := {| Address := req_Address req; Port := req_Port req |} in
          let ps := default [] (peers t !! req_FileHash req) in
          List.filter (samePeer peer) ps = []
          /\ fst (Announce t r)
             = {| peers := <[req_FileHash req := ps ++ [peer]]> (peers t) |}.
Proof.
  unfold Announce.
  destruct (String.eqb_spec (Method r) "POST") as [HM|]; cbn [negb]; [|auto].
  destruct (Body r) as [req|]; [|auto].
  destruct (existsb _ _) eqn:Hscan; [auto|].
  right. exists req. apply scan_filter in Hscan. auto.
Qed.

Lemma Announce_unique (t : Tracker) (r : Request) :
  unique t -> unique (fst (Announce t r)).
Proof.
  intros Hu.
  destruct (Announce_state t r) as [-> | (req & _ & _ & Hnew & ->)]; [exact Hu|].
  intros h p. unfold entries. cbn [peers].
  destruct (decide (req_FileHash req = h)) as [<-|Hne].
  - rewrite lookup_insert_eq. cbn [default from_option id].
    rewrite List.filter_app, length_app. cbn [List.filter].
    destruct (samePeer p _) eqn:Hp.
    + apply samePeer_eq in Hp. subst p. rewrite Hnew. cbn. lia.
    + specialize (Hu (req_FileHash req) p). unfold entries in Hu. cbn. lia.
  - rewrite lookup_insert_ne by exact Hne. apply Hu.
Qed.

Lemma serve_unique (t : Tracker) (c : Call) : unique t -> unique (serve t c).
Proof. destruct c; cbn [serve]; [apply Announce_unique | auto]. Qed.

Lemma fold_serve_unique (calls : list Call) :
  forall t, unique t -> unique (fold_left serve calls t).
Proof.
  induction calls as [|c calls IH]; intros t Hu; cbn [fold_left]; [exact Hu|].
  apply IH, serve_unique, Hu.
Qed.

Lemma run_unique (calls : list Call) : unique (run calls).
Proof.
  apply fold_serve_unique. intros h p. unfold entries, NewTracker. cbn [peers].
  rewrite lookup_empty. cbn. lia.
Qed.

(** After its announcement a peer is listed. *)
Lemma Announce_listed (t : Tracker) (r : Request) (req : AnnounceRequest) :
  Method r = "POST"%string ->
  Body r = Some req ->
  (1 <= entries (fst (Announce t r)) (req_FileHash req)
          {| Address := req_Address req; Port := req_Port req |})%nat.
Proof.
  intros HM HB. unfold Announce, entries. rewrite HM, HB.
  cbn [negb String.eqb Ascii.eqb Bool.eqb].
  set (peer := {| Address := req_Address req; Port := req_Port req |}).
  destruct (existsb _ _) eqn:Hscan; cbn [fst peers].
  - destruct (List.filter (samePeer peer) (default [] (peers t !! req_FileHash req)))
      eqn:Hf.
    + apply scan_filter in Hf. congruence.
    + cbn. lia.
  - rewrite lookup_insert_eq. cbn [default from_option id].
    rewrite List.filter_app, length_app. cbn [List.filter].
    rewrite samePeer_refl. cbn. lia.
Qed.

(** Announcing again what is listed changes nothing. *)
Lemma Announce_again (t : Tracker) (r : Request) :
  fst (Announce (fst (Announce t r)) r) = fst (Announce t r).
Proof.
  destruct (Announce_state t r) as [H | (req & HM & HB & _ & ->)];
    [rewrite !H; reflexivity|].
  unfold Announce at 1. rewrite HM, HB. cbn [negb String.eqb Ascii.eqb Bool.eqb peers].
  rewrite lookup_insert_eq. cbn [default from_option id].
  rewrite existsb_app. cbn [existsb]. rewrite samePeer_refl.
  rewrite orb_true_r. reflexivity.
Qed.

Lemma serve_again (k : nat) (t : Tracker) (r : Request) :
  fold_left serve (replicate (S k) (ToAnnounce r)) t = serve t (ToAnnounce r).
Proof.
  induction k as [|k IH]; [reflexivity|].
  rewrite replicate_S. cbn [fold_left]. rewrite <- IH at 2.
  rewrite replicate_S. cbn [fold_left serve]. rewrite Announce_again. reflexivity.
Qed.

(** A hash that no call has announced is not a key of the registry. *)
Lemma fold_serve_unannounced (h : string) (calls : list Call) :
  forall t,
    peers t !! h = None ->
    forallb (fun c => negb (announces h c)) calls = true ->
    peers (fold_left serve calls t) !! h = None.
Proof.
  induction calls as [|c calls IH]; intros t Ht Hno; cbn [fold_left]; [exact Ht|].
  cbn [forallb] in Hno. apply andb_true_iff in Hno as [Hc Hno].
  apply IH; [|exact Hno].
  destruct c as [r|r]; cbn [serve]; [|exact Ht].
  destruct (Announce_state t r) as [-> | (req & HM & HB & _ & ->)]; [exact Ht|].
  cbn [peers]. rewrite lookup_insert_ne; [exact Ht|].
  intros <-. cbn [announces] in Hc. rewrite HM, HB in Hc.
  rewrite !String.eqb_refl in Hc. discriminate.
Qed.

End Registry.

(** C6.  Whatever the tracker has served before, after one announcement
    of peer [(address, port)] for [fileHash], or after any number of them in
    a row, the registry has exactly one entry for the peer under the hash;
    peers are compared by address and port, and a repeated announcement
    leaves the registry as it is. *)
Theorem Announce_idempotent (calls : list Tracker.Call)
        (fileHash address : string) (port : Z) (k : nat) :
  let a := Tracker.ToAnnounce (Tracker.announcement fileHash address port) in
  let p := {| Tracker.Address := address; Tracker.Port := port |} in
  Tracker.entries (Tracker.run (calls ++ replicate (S k) a)) fileHash p = 1%nat
  /\ Tracker.run (calls ++ replicate (S k) a) = Tracker.run (calls ++ [a])
  /\ Tracker.serve (Tracker.serve (Tracker.run calls) a) a
     = Tracker.serve (Tracker.run calls) a
  /\ forall q : Tracker.Peer,
       Tracker.samePeer q p = true
       <-> Tracker.Address q = address /\ Tracker.Port q = port.
Proof.
  intros a p.
  assert (Hrun : Tracker.run (calls ++ replicate (S k) a) = Tracker.run (calls ++ [a])).
  { unfold Tracker.run. rewrite !fold_left_app. apply serve_again. }
  split; [|split; [exact Hrun|split]].
  - rewrite Hrun. apply Nat.le_antisymm; [apply run_unique|].
    unfold Tracker.run. rewrite fold_left_app. cbn [fold_left Tracker.serve].
    apply (Announce_listed _ (Tracker.announcement fileHash address port)
             (Tracker.Build_AnnounceRequest fileHash address port)); reflexivity.
  - cbn [Tracker.serve]. apply Announce_again.
  - intros q. unfold Tracker.samePeer.
    rewrite andb_true_iff, String.eqb_eq, Z.eqb_eq. reflexivity.
Qed.

(** C7 (as amended).  [Announce] answers 405 to a method other than POST
    and 400 to a body that does not decode; in both cases the registry is
    unchanged.  Every POST whose body decodes is answered 200 and leaves the
    peer listed under the hash, whatever the file hash, the address and the
    port are: none of them is validated. *)
Theorem Announce_status (t : Tracker.Tracker) (r : Tracker.Request) :
  Tracker.statusSent (snd (Tracker.Announce t r))
  = (if negb (String.eqb (Tracker.Method r) "POST") then 405
     else match Tracker.Body r with
          | None => 400
          | Some _ => 200
          end)
  /\ (if negb (String.eqb (Tracker.Method r) "POST") then fst (Tracker.Announce t r) = t
      else match Tracker.Body r with
           | None => fst (Tracker.Announce t r) = t
           | Some req =>
               (1 <= Tracker.entries (fst (Tracker.Announce t r)) (Tracker.req_FileHash req)
                       {| Tracker.Address := Tracker.req_Address req;
                          Tracker.Port := Tracker.req_Port req |})%nat
           end).
Proof.
  destruct (negb (String.eqb (Tracker.Method r) "POST")) eqn:HM.
  - unfold Tracker.Announce. rewrite HM. split; reflexivity.
  - destruct (Tracker.Body r) as [req|] eqn:HB.
    + split.
      * unfold Tracker.Announce. rewrite HM, HB.
        destruct (existsb _ _); reflexivity.
      * apply negb_false_iff, String.eqb_eq in HM.
        apply Announce_listed; assumption.
    + unfold Tracker.Announce. rewrite HM, HB. split; reflexivity.
Qed.

(** C7 as stated fails: an announcement with an empty file hash, an empty
    address and the port 0, malformed in the words of the specification, is
    answered 200 and enters the registry; a GET is answered 405, not 400. *)
Lemma Announce_accepts_malformed :
  let req := {| Tracker.req_FileHash := ""; Tracker.req_Address := "";
                Tracker.req_Port := 0 |} in
  let post := {| Tracker.Method := "POST"; Tracker.Query := [];
                 Tracker.Body := Some req |} in
  let get := {| Tracker.Method := "GET"; Tracker.Query := [];
                Tracker.Body := Some (Tracker.Build_AnnounceRequest "abc" "localhost" 9000) |} in
  Tracker.specMalformed req = true
  /\ Tracker.statusSent (snd (Tracker.Announce Tracker.NewTracker post)) = 200
  /\ Tracker.peers (fst (Tracker.Announce Tracker.NewTracker post)) !! ""%string
     = Some [ {| Tracker.Address := ""; Tracker.Port := 0 |} ]
  /\ Tracker.statusSent (snd (Tracker.Announce Tracker.NewTracker get)) = 405
  /\ Tracker.statusSent (snd (Tracker.Announce Tracker.NewTracker get)) <> 400.
Proof.
  intros req post get.
  split; [reflexivity|]. split; [reflexivity|].
  split; [vm_compute; reflexivity|].
  split; [reflexivity | discriminate].
Qed.

(** C8 (as amended).  For every non-empty file hash that no call has
    announced, [GetPeers] answers 200 with the content type of JSON and the
    body [{"peers": null}]: the list of peers is the nil slice, of length 0,
    which is written as [null] and not as an empty array. *)
Theorem GetPeers_unknown_hash (calls : list Tracker.Call) (fileHash : string) :
  fileHash <> ""%string ->
  forallb (fun c => negb (Tracker.announces fileHash c)) calls = true ->
  Tracker.GetPeers (Tracker.run calls) (Tracker.peersQuery fileHash)
  = {| Tracker.wroteHeader := None;
       Tracker.contentType := "application/json";
       Tracker.body := Tracker.Json (Tracker.JObj [("peers"%string, Tracker.JNull)]) |}
  /\ Tracker.statusSent
       (Tracker.GetPeers (Tracker.run calls) (Tracker.peersQuery fileHash)) = 200
  /\ Tracker.peers (Tracker.run calls) !! fileHash = None
  /\ length (default [] (Tracker.peers (Tracker.run calls) !! fileHash)) = 0%nat.
Proof.
  intros Hne Hno.
  assert (Hnil : Tracker.peers (Tracker.run calls) !! fileHash = None).
  { apply fold_serve_unannounced; [apply lookup_empty | exact Hno]. }
  assert (Hget : Tracker.GetPeers (Tracker.run calls) (Tracker.peersQuery fileHash)
                 = {| Tracker.wroteHeader := None;
                      Tracker.contentType := "application/json";
                      Tracker.body :=
                        Tracker.Json (Tracker.JObj [("peers"%string, Tracker.JNull)]) |}).
  { unfold Tracker.GetPeers, Tracker.peersQuery.
    cbn [Tracker.Method Tracker.Query Tracker.queryGet negb].
    change (String.eqb "GET" "GET") with true.
    change (String.eqb "fileHash" "fileHash") with true. cbn [negb].
    destruct (String.eqb_spec fileHash ""); [contradiction|].
    unfold Tracker.encodePeersResponse. cbn [Tracker.Peers].
    rewrite Hnil. reflexivity. }
  rewrite Hget, Hnil. repeat split.
Qed.

(** A witness of [GetPeers_unknown_hash]: the query for "abc" after an
    announcement of another hash. *)
Lemma GetPeers_unknown_hash_witness :
  Tracker.statusSent
    (Tracker.GetPeers
       (Tracker.run [Tracker.ToAnnounce (Tracker.announcement "def" "localhost" 9000)])
       (Tracker.peersQuery "abc")) = 200.
Proof.
  apply (GetPeers_unknown_hash
           [Tracker.ToAnnounce (Tracker.announcement "def" "localhost" 9000)] "abc").
  - discriminate.
  - reflexivity.
Defined.

(** C8 as stated fails: the body for an unknown hash has [null] where the
    claim has an empty array. *)
Lemma GetPeers_unknown_hash_null :
  Tracker.body (Tracker.GetPeers Tracker.NewTracker (Tracker.peersQuery "abc"))
  = Tracker.Json (Tracker.JObj [("peers"%string, Tracker.JNull)])
  /\ Tracker.body (Tracker.GetPeers Tracker.NewTracker (Tracker.peersQuery "abc"))
     <> Tracker.Json (Tracker.JObj [("peers"%string, Tracker.JArr [])]).
Proof. split; [vm_compute; reflexivity | vm_compute; discriminate]. Qed.

(** For a hash that was announced the body has the array of its peers,
    and an empty [fileHash] is answered 400. *)
Example GetPeers_known_hash :
  let t := Tracker.run [Tracker.ToAnnounce (Tracker.announcement "abc" "localhost" 9000)] in
  Tracker.body (Tracker.GetPeers t (Tracker.peersQuery "abc"))
  = Tracker.Json
      (Tracker.JObj
         [("peers"%string,
           Tracker.JArr [Tracker.JObj [("address"%string, Tracker.JStr "localhost");
                                       ("port"%string, Tracker.JNum 9000)]])])
  /\ Tracker.statusSent (Tracker.GetPeers t (Tracker.peersQuery "")) = 400.
Proof. split; vm_compute; reflexivity. Qed.

(** * Further properties of the code *)

(** ** Package file: the manifest *)

(** X1.  Whatever the chunk size, a manifest that [CreateManifest]
    returns records the length of the file, the chunk size it was given, the
    last element of the path and the digest of the whole file: two manifests
    of one file made with different chunk sizes have the same [FileHash],
    [FileSize] and [FileName]. *)
Theorem CreateManifest_fileHash_independent_of_chunkSize
        (fs : FS) (filePath : string) (f : list byte)
        (chunkSize1 chunkSize2 : Z) (m1 m2 : File.Manifest) :
  fs !! filePath = Some f ->
  File.CreateManifest fs filePath chunkSize1 = Ok m1 ->
  File.CreateManifest fs filePath chunkSize2 = Ok m2 ->
  File.FileHash m1 = sha256_hex f
  /\ File.FileSize m1 = Z.of_nat (length f)
  /\ File.ChunkSize m1 = chunkSize1
  /\ File.FileHash m1 = File.FileHash m2
  /\ File.FileSize m1 = File.FileSize m2
  /\ File.FileName m1 = File.FileName m2.
Proof.
  intros Hf H1 H2.
  assert (Hfields : forall cs m,
            File.CreateManifest fs filePath cs = Ok m ->
            File.FileHash m = sha256_hex f
            /\ File.FileSize m = Z.of_nat (length f)
            /\ File.ChunkSize m = cs
            /\ File.FileName m = File.basename filePath).
  { intros cs m. unfold File.CreateManifest. rewrite Hf.
    destruct (cs =? 0); [discriminate|].
    destruct (_ <? 0); [discriminate|].
    destruct (File.chunkLoop _ _ _ _ _ _); [|discriminate|discriminate].
    intros [= <-]. cbn. auto. }
  destruct (Hfields _ _ H1) as (Ha & Hb & Hc & Hd).
  destruct (Hfields _ _ H2) as (Ha' & Hb' & _ & Hd').
  repeat split; congruence.
Qed.

Lemma CreateManifest_fileHash_independent_of_chunkSize_witness :
  exists m1 m2 : File.Manifest,
    File.CreateManifest {[ "d/f"%string := bytes_of "abc" ]} "d/f" 1 = Ok m1
    /\ File.CreateManifest {[ "d/f"%string := bytes_of "abc" ]} "d/f" 2 = Ok m2
    /\ File.FileHash m1 = File.FileHash m2.
Proof.
  eexists _, _. split; [vm_compute; reflexivity|]. split; [vm_compute; reflexivity|].
  eapply (CreateManifest_fileHash_independent_of_chunkSize
            {[ "d/f"%string := bytes_of "abc" ]} "d/f" (bytes_of "abc") 1 2).
  - reflexivity.
  - vm_compute. reflexivity.
  - vm_compute. reflexivity.
Defined.

(** The failures of [CreateManifest]: a path that names no file is
    an error whatever the chunk size is, also for the chunk size 0; for a
    file that exists, the chunk size 0 is not rejected with an error: the
    division panics. *)
Theorem CreateManifest_failures (fs : FS) (filePath : string) (chunkSize : Z) :
  (fs !! filePath = None -> File.CreateManifest fs filePath chunkSize = Err ENOENT)
  /\ (is_Some (fs !! filePath) ->
      File.CreateManifest fs filePath 0 = Panic "integer divide by zero").
Proof.
  unfold File.CreateManifest. split.
  - intros ->. reflexivity.
  - intros [f ->]. reflexivity.
Qed.

(** The manifest of an empty file. *)
Lemma CreateManifest_of_empty (fs : FS) (filePath : string) (chunkSize : Z) :
  fs !! filePath = Some [] ->
  0 < chunkSize <= MaxInt64 ->
  File.CreateManifest fs filePath chunkSize
  = Ok {| File.FileName := File.basename filePath;
          File.FileSize := 0;
          File.ChunkSize := chunkSize;
          File.Chunks := [];
          File.FileHash :=
            "e3b0c44298fc1c149afbf4c8996fb92427ae41e4649b934ca495991b7852b855" |}.
Proof.
  intros Hf [Hpos Hmax].
  rewrite (CreateManifest_exact [] chunkSize Hpos ltac:(cbn [length]; lia) fs filePath Hf).
  cbn [length]. change (Z.of_nat 0) with 0.
  rewrite numChunksExact_small by lia. cbn [Z.eqb].
  rewrite seqZ_nil by lia. rewrite <- sha256_empty. reflexivity.
Qed.

(** X2.  The manifest of an empty file, for every positive chunk size:
    no chunks, size 0, and the digest of the empty input. *)
Theorem CreateManifest_empty_file (fs : FS) (filePath : string) (chunkSize : Z) :
  fs !! filePath = Some [] ->
  0 < chunkSize <= MaxInt64 ->
  File.CreateManifest fs filePath chunkSize
  = Ok {| File.FileName := File.basename filePath;
          File.FileSize := 0;
          File.ChunkSize := chunkSize;
          File.Chunks := [];
          File.FileHash :=
            "e3b0c44298fc1c149afbf4c8996fb92427ae41e4649b934ca495991b7852b855" |}.
Proof. apply CreateManifest_of_empty. Qed.

Lemma CreateManifest_empty_file_witness :
  File.CreateManifest {[ "f"%string := [] ]} "f" File.DefaultChunkSize
  = Ok {| File.FileName := "f";
          File.FileSize := 0;
          File.ChunkSize := 1048576;
          File.Chunks := [];
          File.FileHash :=
            "e3b0c44298fc1c149afbf4c8996fb92427ae41e4649b934ca495991b7852b855" |}.
Proof.
  apply (CreateManifest_empty_file {[ "f"%string := [] ]} "f" File.DefaultChunkSize).
  - reflexivity.
  - split; [reflexivity | vm_compute; discriminate].
Defined.

(** X3.  Where the hash of a chunk is right: the last chunk of a non-empty
    file has the digest of its own byte range, and passes [VerifyChunk] on
    it, when the file fits into one chunk or its size is a multiple of the
    chunk size. *)
Theorem CreateManifest_last_chunk_verifies
        (fs : FS) (filePath : string) (f : list byte) (chunkSize : Z) :
  fs !! filePath = Some f ->
  0 < chunkSize ->
  Z.of_nat (length f) + chunkSize - 1 <= MaxInt64 ->
  0 < Z.of_nat (length f) ->
  Z.of_nat (length f) <= chunkSize \/ Z.of_nat (length f) mod chunkSize = 0 ->
  exists (m : File.Manifest) (c : File.Chunk),
    File.CreateManifest fs filePath chunkSize = Ok m
    /\ last (File.Chunks m) = Some c
    /\ File.VerifyChunk c
         (File.byteRange f ((Z.of_nat (length (File.Chunks m)) - 1) * chunkSize)
                         (File.Size c)) = true.
Proof.
  intros Hf Hcs Hno Hpos Hal.
  pose proof (n_ceiling f chunkSize Hcs) as Hceil.
  pose proof (n_nonneg f chunkSize Hcs) as Hn.
  set (size := Z.of_nat (length f)) in *.
  set (n := File.numChunksExact size chunkSize) in *.
  assert (Hn1 : 1 <= n) by nia.
  eexists _, (File.chunkAt f chunkSize (n - 1)).
  split; [apply CreateManifest_exact; eassumption|].
  cbn [File.Chunks]. fold size n.
  assert (Hlen : Z.of_nat (length (File.chunkAt f chunkSize <$> seqZ 0 n)) = n).
  { rewrite length_fmap, length_seqZ. lia. }
  rewrite Hlen. split.
  - rewrite fmap_last, last_lookup, length_seqZ.
    rewrite (proj2 (lookup_seqZ 0 n _ (n - 1))) by lia. reflexivity.
  - unfold File.VerifyChunk, File.chunkAt, File.hashFrom, File.byteRange.
    cbn [File.Hash File.Size]. fold size.
    assert (Hs : File.sizeAt size chunkSize (n - 1) = size - (n - 1) * chunkSize).
    { unfold File.sizeAt. fold n. rewrite Z.eqb_refl. reflexivity. }
    rewrite Hs.
    assert (Hoff : (n - 1) * (size - (n - 1) * chunkSize) = (n - 1) * chunkSize).
    { destruct Hal as [Hsmall | Hmul].
      - assert (n = 1) by nia. subst n. lia.
      - apply Z.mod_divide in Hmul; [|lia]. destruct Hmul as [q Hq].
        assert (q = n) by nia. nia. }
    rewrite Hoff.
    rewrite take_ge; [apply String.eqb_refl|].
    rewrite length_drop. unfold size. lia.
Qed.

Lemma CreateManifest_last_chunk_verifies_witness :
  exists (m : File.Manifest) (c : File.Chunk),
    File.CreateManifest {[ "f"%string := bytes_of "abcd" ]} "f" 2 = Ok m
    /\ last (File.Chunks m) = Some c
    /\ File.VerifyChunk c
         (File.byteRange (bytes_of "abcd")
            ((Z.of_nat (length (File.Chunks m)) - 1) * 2) (File.Size c)) = true.
Proof.
  apply (CreateManifest_last_chunk_verifies
           {[ "f"%string := bytes_of "abcd" ]} "f" (bytes_of "abcd") 2).
  - reflexivity.
  - lia.
  - vm_compute. discriminate.
  - vm_compute. reflexivity.
  - right. reflexivity.
Defined.

(** ** Package file: the chunk store *)

Lemma hex_lower (bs : list byte) : allChars lowerHex (hex bs) = true.
Proof.
  induction bs as [|b bs IH]; [reflexivity|].
  cbn [hex allChars]. rewrite IH, andb_true_r.
  destruct b; reflexivity.
Qed.

(** X4.  [VerifyChunk] compares with the 64 lower-case hexadecimal
    characters that ["%x"] prints: a chunk whose hash has another length, or
    a character outside [0-9a-f] such as an upper-case digit, is verified by
    no data at all. *)
Theorem VerifyChunk_needs_lower_hex_digest (chunk : File.Chunk) (data : list byte) :
  File.VerifyChunk chunk data = true ->
  File.Hash chunk = sha256_hex data
  /\ String.length (File.Hash chunk) = 64%nat
  /\ allChars lowerHex (File.Hash chunk) = true.
Proof.
  unfold File.VerifyChunk. intros H. apply String.eqb_eq in H.
  rewrite <- H. split; [reflexivity|]. split; [apply sha256_hex_length|].
  apply hex_lower.
Qed.

Lemma VerifyChunk_needs_lower_hex_digest_witness :
  String.length (sha256_hex (bytes_of "abc")) = 64%nat.
Proof.
  apply (VerifyChunk_needs_lower_hex_digest
           {| File.Hash := sha256_hex (bytes_of "abc"); File.Size := 3 |}
           (bytes_of "abc")).
  vm_compute. reflexivity.
Defined.

(** What a successful [GetChunk] has done. *)
Lemma GetChunk_ok_inv
        (fs : FS) (filePath : string) (chunk : File.Chunk) (data : list byte) :
  File.GetChunk fs filePath chunk = Ok data ->
  File.VerifyChunk chunk data = true
  /\ Z.of_nat (length data) = File.Size chunk
  /\ exists f : list byte,
       fs !! filePath = Some f
       /\ data = File.byteRange f
                   (File.offsetLoop (String.length (File.Hash chunk)) (File.Size chunk) 0)
                   (File.Size chunk).
Proof.
  unfold File.GetChunk.
  destruct (fs !! filePath) as [f|]; [|discriminate].
  destruct (_ <? 0); [discriminate|].
  destruct (Z.ltb_spec (File.Size chunk) 0); [discriminate|].
  destruct (ReadFull _ _) as [e|d] eqn:Hread; [discriminate|].
  destruct (String.eqb _ _) eqn:Hv; [|discriminate].
  intros [= <-].
  split; [exact Hv|].
  unfold ReadFull in Hread.
  destruct (Nat.leb_spec (Z.to_nat (File.Size chunk))
              (length (drop (Z.to_nat (File.offsetLoop (String.length (File.Hash chunk))
                                         (File.Size chunk) 0)) f))) as [Hle|];
    [|destruct (_ =? _)%nat; discriminate].
  injection Hread as <-.
  split; [rewrite length_take; lia|].
  exists f. split; reflexivity.
Qed.

(** X5.  What [GetChunk] returns has been verified: the data it returns
    pass [VerifyChunk] for the chunk, have exactly [chunk.Size] bytes, and
    are the bytes of the file at the offset that its loop computes. *)
Theorem GetChunk_returns_verified_data
        (fs : FS) (filePath : string) (chunk : File.Chunk) (data : list byte) :
  File.GetChunk fs filePath chunk = Ok data ->
  File.VerifyChunk chunk data = true
  /\ Z.of_nat (length data) = File.Size chunk
  /\ exists f : list byte,
       fs !! filePath = Some f
       /\ data = File.byteRange f
                   (File.offsetLoop (String.length (File.Hash chunk)) (File.Size chunk) 0)
                   (File.Size chunk).
Proof. apply GetChunk_ok_inv. Qed.

Lemma GetChunk_returns_verified_data_witness :
  let f := repeat "a"%byte 64 ++ bytes_of "b" in
  let chunk := {| File.Hash := sha256_hex (bytes_of "b"); File.Size := 1 |} in
  File.VerifyChunk chunk (bytes_of "b") = true
  /\ Z.of_nat (length (bytes_of "b")) = File.Size chunk
  /\ exists f' : list byte,
       ({[ "f"%string := f ]} : FS) !! "f"%string = Some f'
       /\ bytes_of "b"
          = File.byteRange f'
              (File.offsetLoop (String.length (File.Hash chunk)) (File.Size chunk) 0)
              (File.Size chunk).
Proof.
  intros f chunk.
  apply (GetChunk_returns_verified_data {[ "f"%string := f ]} "f" chunk (bytes_of "b")).
  vm_compute. reflexivity.
Defined.

(** X6.  Reading and writing compose: what [GetChunk] returns for a chunk,
    [WriteChunk] accepts for the same chunk and appends to the file, when
    the write itself succeeds; data that do not pass [VerifyChunk] are never
    written. *)
Theorem GetChunk_then_WriteChunk
        (fs : FS) (filePath : string) (chunk : File.Chunk) (data : list byte)
        (out other : list byte) (writeOk : bool) :
  File.GetChunk fs filePath chunk = Ok data ->
  File.WriteChunk true out chunk data = (Ok tt, out ++ data)
  /\ (File.VerifyChunk chunk other = false ->
      File.WriteChunk writeOk out chunk other = (Err File.hashFailed, out)).
Proof.
  intros H. apply GetChunk_ok_inv in H as (Hv & _ & _).
  unfold File.VerifyChunk in Hv. unfold File.WriteChunk, File.VerifyChunk.
  rewrite Hv. split; [reflexivity|]. intros ->. reflexivity.
Qed.

Lemma GetChunk_then_WriteChunk_witness :
  File.WriteChunk true (bytes_of "xy")
    {| File.Hash := sha256_hex (bytes_of "b"); File.Size := 1 |} (bytes_of "b")
  = (Ok tt, bytes_of "xyb").
Proof.
  apply (GetChunk_then_WriteChunk
           {[ "f"%string := repeat "a"%byte 64 ++ bytes_of "b" ]} "f"
           {| File.Hash := sha256_hex (bytes_of "b"); File.Size := 1 |}
           (bytes_of "b") (bytes_of "xy") [] true).
  vm_compute. reflexivity.
Defined.

(** [GetChunk] on a chunk that carries a digest, of a size that puts the
    offset [64 * chunk.Size] at or behind the end of the file: nothing can
    be read. *)
Lemma GetChunk_behind_end (fs : FS) (filePath : string) (f : list byte)
      (chunk : File.Chunk) (data : list byte) :
  fs !! filePath = Some f ->
  File.Hash chunk = sha256_hex data ->
  0 < File.Size chunk ->
  64 * File.Size chunk <= MaxInt64 ->
  Z.of_nat (length f) <= 64 * File.Size chunk ->
  File.GetChunk fs filePath chunk = Err EOF.
Proof.
  intros Hf Hh Hs Hb Hlen.
  rewrite (GetChunk_offset fs filePath f chunk data Hf Hh) by lia.
  unfold ReadFull. rewrite length_drop.
  destruct (Nat.leb_spec (Z.to_nat (File.Size chunk))
              (length f - Z.to_nat (64 * File.Size chunk))); [lia|].
  destruct (Nat.eqb_spec (length f - Z.to_nat (64 * File.Size chunk)) 0);
    [reflexivity | lia].
Qed.

(** Within the limits of the machine [GetChunkOn] is [GetChunk]. *)
Lemma GetChunkOn_within (lim : File.Limits) (fs : FS) (filePath : string)
      (chunk : File.Chunk) :
  File.offsetLoop (String.length (File.Hash chunk)) (File.Size chunk) 0
  <= File.seekMax lim ->
  File.Size chunk <= File.allocMax lim ->
  File.GetChunkOn lim fs filePath chunk = File.GetChunk fs filePath chunk.
Proof.
  intros Hseek Halloc. unfold File.GetChunkOn, File.GetChunk.
  destruct (fs !! filePath) as [f|]; [|reflexivity]. cbv zeta.
  destruct (Z.ltb_spec (File.seekMax lim)
              (File.offsetLoop (String.length (File.Hash chunk)) (File.Size chunk) 0));
    [lia|].
  destruct (Z.ltb_spec (File.allocMax lim) (File.Size chunk)); [lia|].
  rewrite !orb_false_r. reflexivity.
Qed.

(** X7.  [GetChunk] cannot read the chunk of a file that fits into one
    chunk.  For every non-empty file of at most [chunkSize] bytes (and less
    than 2^57, so that the offset is an [int64]), called with the only chunk
    of the manifest that [CreateManifest] makes of it, [GetChunk] returns no
    data on any machine: it seeks to [64 * size], at or behind the end of
    the file, and fails with EINVAL when the file system refuses that
    offset, stops in [make] when the slice cannot be allocated, and fails
    with [io.EOF] otherwise. *)
Theorem GetChunk_fails_on_single_chunk_file
        (lim : File.Limits) (fs : FS) (filePath : string) (f : list byte)
        (chunkSize : Z) :
  fs !! filePath = Some f ->
  0 < Z.of_nat (length f) <= chunkSize ->
  Z.of_nat (length f) + chunkSize - 1 <= MaxInt64 ->
  64 * Z.of_nat (length f) <= MaxInt64 ->
  exists (m : File.Manifest) (chunk : File.Chunk),
    File.CreateManifest fs filePath chunkSize = Ok m
    /\ File.Chunks m = [chunk]
    /\ File.Size chunk = Z.of_nat (length f)
    /\ File.GetChunkOn lim fs filePath chunk
       = (if File.seekMax lim <? 64 * Z.of_nat (length f) then Err EINVAL
          else if File.allocMax lim <? Z.of_nat (length f)
               then Panic "makeslice: len out of range"
               else Err EOF)
    /\ forall data : list byte, File.GetChunkOn lim fs filePath chunk <> Ok data.
Proof.
  intros Hf [Hpos Hle] Hno H64.
  assert (Hcs : 0 < chunkSize) by lia.
  assert (Hn : File.numChunksExact (Z.of_nat (length f)) chunkSize = 1).
  { rewrite numChunksExact_small by lia.
    destruct (Z.eqb_spec (Z.of_nat (length f)) 0); [lia | reflexivity]. }
  assert (Hsz : File.sizeAt (Z.of_nat (length f)) chunkSize 0 = Z.of_nat (length f)).
  { unfold File.sizeAt. rewrite Hn. change (0 =? 1 - 1) with true. cbv iota. lia. }
  set (chunk := File.chunkAt f chunkSize 0).
  assert (Hsize : File.Size chunk = Z.of_nat (length f)) by exact Hsz.
  assert (Hoff : File.offsetLoop (String.length (File.Hash chunk)) (File.Size chunk) 0
                 = 64 * Z.of_nat (length f)).
  { unfold chunk, File.chunkAt, File.hashFrom. cbn [File.Hash File.Size].
    rewrite sha256_hex_length, Hsz, offsetLoop_exact by lia. lia. }
  assert (Hget : File.GetChunkOn lim fs filePath chunk
                 = (if File.seekMax lim <? 64 * Z.of_nat (length f) then Err EINVAL
                    else if File.allocMax lim <? Z.of_nat (length f)
                         then Panic "makeslice: len out of range"
                         else Err EOF)).
  { destruct (Z.ltb_spec (File.seekMax lim) (64 * Z.of_nat (length f))) as [Hs|Hs].
    - unfold File.GetChunkOn. rewrite Hf. cbv zeta. rewrite Hoff.
      destruct (Z.ltb_spec (File.seekMax lim) (64 * Z.of_nat (length f))); [|lia].
      rewrite orb_true_r. reflexivity.
    - destruct (Z.ltb_spec (File.allocMax lim) (Z.of_nat (length f))) as [Ha|Ha].
      + unfold File.GetChunkOn. rewrite Hf. cbv zeta. rewrite Hoff, Hsize.
        destruct (Z.ltb_spec (64 * Z.of_nat (length f)) 0); [lia|].
        destruct (Z.ltb_spec (File.seekMax lim) (64 * Z.of_nat (length f))); [lia|].
        destruct (Z.ltb_spec (File.allocMax lim) (Z.of_nat (length f))); [|lia].
        rewrite orb_true_r. reflexivity.
      + rewrite GetChunkOn_within by (rewrite ?Hoff, ?Hsize; lia).
        apply (GetChunk_behind_end fs filePath f chunk
                 (drop (Z.to_nat (0 * File.sizeAt (Z.of_nat (length f)) chunkSize 0)) f));
          [exact Hf | reflexivity | lia | lia | lia]. }
  exists {| File.FileName := File.basename filePath;
            File.FileSize := Z.of_nat (length f);
            File.ChunkSize := chunkSize;
            File.Chunks := File.chunkAt f chunkSize
                             <$> seqZ 0 (File.numChunksExact (Z.of_nat (length f)) chunkSize);
            File.FileHash := sha256_hex f |}, chunk.
  split; [apply CreateManifest_exact; assumption|].
  cbn [File.Chunks]. rewrite Hn.
  split; [rewrite (seqZ_cons 0 1), seqZ_nil by lia; reflexivity|].
  split; [exact Hsize|]. split; [exact Hget|].
  intros data. rewrite Hget.
  destruct (_ <? _); [discriminate|]. destruct (_ <? _); discriminate.
Qed.

Lemma GetChunk_fails_on_single_chunk_file_witness :
  exists (m : File.Manifest) (chunk : File.Chunk),
    File.CreateManifest {[ "f"%string := bytes_of "abc" ]} "f" File.DefaultChunkSize = Ok m
    /\ File.Chunks m = [chunk]
    /\ File.Size chunk = 3
    /\ File.GetChunkOn {| File.seekMax := 2 ^ 44; File.allocMax := 2 ^ 48 |}
                       {[ "f"%string := bytes_of "abc" ]} "f" chunk = Err EOF
    /\ forall data : list byte,
         File.GetChunkOn {| File.seekMax := 2 ^ 44; File.allocMax := 2 ^ 48 |}
                         {[ "f"%string := bytes_of "abc" ]} "f" chunk <> Ok data.
Proof.
  apply (GetChunk_fails_on_single_chunk_file
           {| File.seekMax := 2 ^ 44; File.allocMax := 2 ^ 48 |}
           {[ "f"%string := bytes_of "abc" ]} "f" (bytes_of "abc") File.DefaultChunkSize).
  - reflexivity.
  - split; [reflexivity | vm_compute; discriminate].
  - vm_compute. discriminate.
  - vm_compute. discriminate.
Defined.

(** X8.  [HashChunks] returns one digest of 32 bytes per chunk, in the
    order of the chunks, and the hexadecimal form of what [HashChunk]
    returns is the hash that [VerifyChunk] accepts for the same bytes. *)
Theorem HashChunks_digests (chunks : list (list byte)) :
  length (File.HashChunks chunks) = length chunks
  /\ (forall (i : nat) (data : list byte),
        chunks !! i = Some data ->
        exists digest : list byte,
          File.HashChunks chunks !! i = Some digest
          /\ digest = File.HashChunk data
          /\ length digest = 32%nat
          /\ forall size : Z,
               File.VerifyChunk {| File.Hash := hex digest; File.Size := size |} data
               = true).
Proof.
  unfold File.HashChunks. split; [apply length_map|].
  intros i data Hi. exists (File.HashChunk data).
  split.
  - change (List.map File.HashChunk chunks) with (File.HashChunk <$> chunks).
    rewrite list_lookup_fmap, Hi. reflexivity.
  - split; [reflexivity|]. split; [apply Sum256_length|].
    intros size. unfold File.VerifyChunk, File.HashChunk, sha256_hex.
    cbn [File.Hash]. apply String.eqb_refl.
Qed.

(** ** Package peer: the serving side *)

(** X9.  [handleConnection] writes a payload only for a request that
    decodes, for a file whose manifest can be made, for an index inside the
    chunks of that manifest, and only the bytes that the chunk reader
    returned for the manifest and the index. *)
Theorem handleConnection_payload_comes_from_reader
        (getChunk : FS -> string -> File.Manifest -> Z -> result (list byte))
        (fs : FS) (filePath : string) (req : option Z) (chunkData : list byte) :
  Peer.handleConnection getChunk fs filePath req = Peer.Payload chunkData ->
  exists (chunkIndex : Z) (m : File.Manifest),
    req = Some chunkIndex
    /\ File.CreateManifest fs filePath File.DefaultChunkSize = Ok m
    /\ 0 <= chunkIndex < Z.of_nat (length (File.Chunks m))
    /\ getChunk fs filePath m chunkIndex = Ok chunkData.
Proof.
  unfold Peer.handleConnection.
  destruct req as [chunkIndex|]; [|discriminate].
  destruct (File.CreateManifest _ _ _) as [m| |]; [|discriminate|discriminate].
  destruct (Z.ltb_spec chunkIndex 0); [discriminate|].
  destruct (Z.leb_spec (Z.of_nat (length (File.Chunks m))) chunkIndex); [discriminate|].
  cbn [orb].
  destruct (getChunk fs filePath m chunkIndex) as [d| |] eqn:Hget;
    [|discriminate|discriminate].
  intros [= <-]. exists chunkIndex, m. repeat split; auto; lia.
Qed.

Lemma handleConnection_payload_comes_from_reader_witness :
  exists (chunkIndex : Z) (m : File.Manifest),
    Some 0 = Some chunkIndex
    /\ File.CreateManifest {[ "f"%string := bytes_of "abc" ]} "f" File.DefaultChunkSize = Ok m
    /\ 0 <= chunkIndex < Z.of_nat (length (File.Chunks m))
    /\ (fun _ _ _ _ => Ok (bytes_of "abc"))
         ({[ "f"%string := bytes_of "abc" ]} : FS) "f"%string m chunkIndex
       = Ok (bytes_of "abc").
Proof.
  apply (handleConnection_payload_comes_from_reader
           (fun _ _ _ _ => Ok (bytes_of "abc"))
           {[ "f"%string := bytes_of "abc" ]} "f" (Some 0) (bytes_of "abc")).
  vm_compute. reflexivity.
Defined.

(** X10.  An empty file is never served, and neither is a missing one:
    whatever index is requested and whatever reads the chunks, the
    connection is closed without payload, for the empty file because its
    manifest has no chunk. *)
Theorem handleConnection_empty_or_missing_file
        (getChunk : FS -> string -> File.Manifest -> Z -> result (list byte))
        (fs : FS) (filePath : string) (req : option Z) :
  fs !! filePath = Some [] \/ fs !! filePath = None ->
  Peer.onWire (Peer.handleConnection getChunk fs filePath req) = []
  /\ forall chunkIndex : Z,
       req = Some chunkIndex ->
       Peer.handleConnection getChunk fs filePath req
       = match fs !! filePath with
         | Some _ => Peer.NoPayload (Peer.InvalidIndex chunkIndex)
         | None => Peer.NoPayload (Peer.ManifestError ENOENT)
         end.
Proof.
  intros Hf.
  assert (H : forall chunkIndex,
            Peer.handleConnection getChunk fs filePath (Some chunkIndex)
            = match fs !! filePath with
              | Some _ => Peer.NoPayload (Peer.InvalidIndex chunkIndex)
              | None => Peer.NoPayload (Peer.ManifestError ENOENT)
              end).
  { intros chunkIndex. unfold Peer.handleConnection.
    destruct Hf as [Hf|Hf].
    - rewrite (CreateManifest_of_empty fs filePath File.DefaultChunkSize Hf)
        by (split; [reflexivity | vm_compute; discriminate]).
      rewrite Hf. cbn [File.Chunks length]. change (Z.of_nat 0) with 0.
      destruct (Z.ltb_spec chunkIndex 0); [reflexivity|].
      destruct (Z.leb_spec 0 chunkIndex); [reflexivity | lia].
    - unfold File.CreateManifest. rewrite Hf. reflexivity. }
  split.
  - destruct req as [chunkIndex|]; [|reflexivity].
    rewrite H. destruct (fs !! filePath); reflexivity.
  - intros chunkIndex ->. apply H.
Qed.

Lemma handleConnection_empty_or_missing_file_witness :
  Peer.onWire
    (Peer.handleConnection (fun _ _ _ _ => Ok (bytes_of "abc"))
                           {[ "f"%string := [] ]} "f" (Some 0)) = [].
Proof.
  apply (handleConnection_empty_or_missing_file
           (fun _ _ _ _ => Ok (bytes_of "abc")) {[ "f"%string := [] ]} "f" (Some 0)).
  left. reflexivity.
Defined.

(** ** Package peer: the requesting side *)

(** The loop of [DownloadFile], however it ends: it has appended the data
    of the first [k] chunks, each verified and of the size of its chunk, has
    requested the indices from [i] on in ascending order, one more than it
    appended at most, and has dialled the one peer no more often than there
    are chunks. *)
Lemma downloadLoop_any (env : Peer.Env) (peerAddress : string) (peerPort : Z)
      (chunks : list File.Chunk) :
  forall i defers w r defers' w',
    Peer.downloadLoop env peerAddress peerPort chunks i defers w = (r, defers', w') ->
    exists (k j j' : nat) (datas : list (list byte)),
      (k <= j <= S k)%nat /\ (j <= j' <= length chunks)%nat
      /\ Peer.outFile w' = Peer.outFile w ++ concat datas
      /\ Forall2 (fun c data => File.VerifyChunk c data = true
                                /\ Z.of_nat (length data) = File.Size c)
                 (take k chunks) datas
      /\ Peer.requests (Peer.trace w')
         = Peer.requests (Peer.trace w) ++ seqZ i (Z.of_nat j)
      /\ Peer.dials (Peer.trace w')
         = Peer.dials (Peer.trace w) ++ replicate j' (peerAddress, peerPort)
      /\ (r = Ok tt <-> k = length chunks).
Proof.
  induction chunks as [|chunk chunks IH]; intros i defers w r defers' w' H;
    cbn [Peer.downloadLoop] in H.
  - injection H as <- <- <-. exists 0%nat, 0%nat, 0%nat, [].
    cbn [length take concat replicate]. rewrite seqZ_nil by lia.
    rewrite !app_nil_r. repeat split; auto; constructor.
  - destruct (Peer.dialOk env (Peer.dialled w)); cbn [negb] in H.
    2:{ injection H as <- <- <-. exists 0%nat, 0%nat, 1%nat, [].
        cbn [Peer.emit Peer.trace Peer.outFile length take concat].
        rewrite requests_app, dials_app, seqZ_nil by lia. cbn.
        rewrite !app_nil_r. repeat split; auto; try lia; try constructor;
          try (intros; discriminate). }
    destruct (Peer.sendOk env (Peer.dialled w)); cbn [negb] in H.
    2:{ injection H as <- <- <-. exists 0%nat, 0%nat, 1%nat, [].
        cbn [Peer.connect Peer.trace Peer.outFile length take concat].
        rewrite requests_app, dials_app, seqZ_nil by lia. cbn.
        rewrite !app_nil_r. repeat split; auto; try lia; try constructor;
          try (intros; discriminate). }
    assert (Hstop : forall e,
              (r, defers', w') =
              (e, Peer.dialled w :: defers,
               Peer.emit (Peer.EvRequest (Peer.dialled w) i)
                         (Peer.connect peerAddress peerPort w)) ->
              e <> Ok tt ->
              exists (k j j' : nat) (datas : list (list byte)),
                (k <= j <= S k)%nat /\ (j <= j' <= length (chunk :: chunks))%nat
                /\ Peer.outFile w' = Peer.outFile w ++ concat datas
                /\ Forall2 (fun c data => File.VerifyChunk c data = true
                                          /\ Z.of_nat (length data) = File.Size c)
                           (take k (chunk :: chunks)) datas
                /\ Peer.requests (Peer.trace w')
                   = Peer.requests (Peer.trace w) ++ seqZ i (Z.of_nat j)
                /\ Peer.dials (Peer.trace w')
                   = Peer.dials (Peer.trace w) ++ replicate j' (peerAddress, peerPort)
                /\ (r = Ok tt <-> k = length (chunk :: chunks))).
    { intros e [= -> -> ->] He. exists 0%nat, 1%nat, 1%nat, [].
      cbn [Peer.emit Peer.connect Peer.trace Peer.outFile length take concat].
      rewrite !requests_app, !dials_app. cbn.
      rewrite !app_nil_r. repeat split; auto; try lia; try constructor;
        try (intros; contradiction); try (intros; discriminate). }
    destruct (Z.ltb_spec (File.Size chunk) 0) as [|Hsize];
      [apply (Hstop _ (eq_sym H)); discriminate|].
    destruct (Peer.ReadFullConn _ _) as [e|chunkData] eqn:Hread;
      [apply (Hstop _ (eq_sym H)); discriminate|].
    destruct (File.VerifyChunk chunk chunkData) eqn:Hverify; cbn [negb] in H;
      [|apply (Hstop _ (eq_sym H)); discriminate].
    destruct (Peer.writeOk env i); cbn [negb] in H;
      [|apply (Hstop _ (eq_sym H)); discriminate].
    clear Hstop.
    apply IH in H as (k & j & j' & datas & Hkj & Hj & Hout & Hall & Hreq & Hdial & Hr).
    cbn [Peer.append Peer.emit Peer.connect Peer.trace Peer.outFile] in Hout, Hreq, Hdial.
    rewrite !requests_app in Hreq. rewrite !dials_app in Hdial.
    cbn in Hreq, Hdial. rewrite app_nil_r in Hreq, Hdial.
    apply ReadFullConn_length in Hread as [_ Hlen].
    exists (S k), (S j), (S j'), (chunkData :: datas).
    cbn [length take concat replicate].
    split; [lia|]. split; [lia|].
    split; [rewrite Hout, <- app_assoc; reflexivity|].
    split; [constructor; [split; [assumption | lia] | assumption]|].
    split.
    { rewrite Hreq, <- !app_assoc. f_equal.
      rewrite (seqZ_cons i) by lia. cbn [app]. do 2 f_equal; lia. }
    split; [rewrite Hdial, <- !app_assoc; reflexivity|].
    rewrite Hr. split; [intros ->; reflexivity | intros [= ->]; reflexivity].
Qed.

(** [DownloadFile], once the output file exists, is its loop from index 0
    followed by the deferred calls. *)
Lemma DownloadFile_run (env : Peer.Env) (manifest : File.Manifest)
      (peerAddress : string) (peerPort : Z) (outputPath : string)
      (w : Peer.World) (r : result unit) (w' : Peer.World) :
  Peer.mkdirOk env = true ->
  Peer.createOk env = true ->
  Peer.DownloadFile env manifest peerAddress peerPort outputPath w = (r, w') ->
  exists (defers : list nat) (w1 : Peer.World),
    Peer.downloadLoop env peerAddress peerPort (File.Chunks manifest) 0 []
                      (Peer.truncate outputPath w) = (r, defers, w1)
    /\ w' = Peer.emit Peer.EvFileClose (Peer.runDefers defers w1).
Proof.
  intros Hmk Hcr. unfold Peer.DownloadFile. rewrite Hmk, Hcr. cbn [negb].
  destruct (Peer.downloadLoop _ _ _ _ _ _ _) as [[r1 defers] w1].
  intros [= <- <-]. exists defers, w1. auto.
Qed.

Lemma verified_total_size (chunks : list File.Chunk) (datas : list (list byte)) :
  Forall2 (fun c data => File.VerifyChunk c data = true
                         /\ Z.of_nat (length data) = File.Size c) chunks datas ->
  Z.of_nat (length (concat datas)) = totalSize chunks.
Proof.
  unfold totalSize.
  induction 1 as [|c data chunks datas [_ Hlen] _ IH]; [reflexivity|].
  cbn [concat fmap list_fmap foldr]. rewrite length_app. fold (File.Size <$> chunks). lia.
Qed.

(** X11.  The output file holds no unverified bytes.  However a download
    ends, unless it ends with the error of a failed write to the output
    file, once the output file has been created it holds the data
    of the first [k] chunks of the manifest and nothing else: each piece
    passed [VerifyChunk] for its chunk and has the size of its chunk, so the
    file has the sum of these sizes; the download succeeds exactly when [k]
    is the number of chunks.  What the file held before is gone. *)
Theorem DownloadFile_output_is_verified_prefix
        (env : Peer.Env) (manifest : File.Manifest) (peerAddress : string)
        (peerPort : Z) (outputPath : string) (w w' : Peer.World) (r : result unit) :
  Peer.mkdirOk env = true ->
  Peer.createOk env = true ->
  Peer.DownloadFile env manifest peerAddress peerPort outputPath w = (r, w') ->
  r <> Err (Wrapf "failed to write chunk to file" EDisk) ->
  exists (k : nat) (datas : list (list byte)),
    (k <= length (File.Chunks manifest))%nat
    /\ Peer.outFile w' = concat datas
    /\ Forall2 (fun c data => File.VerifyChunk c data = true
                              /\ Z.of_nat (length data) = File.Size c)
               (take k (File.Chunks manifest)) datas
    /\ Z.of_nat (length (Peer.outFile w')) = totalSize (take k (File.Chunks manifest))
    /\ (r = Ok tt <-> k = length (File.Chunks manifest)).
Proof.
  intros Hmk Hcr H _.
  apply DownloadFile_run in H as (defers & w1 & Hloop & ->); [|assumption..].
  apply downloadLoop_any in Hloop
    as (k & j & j' & datas & Hkj & Hj & Hout & Hall & _ & _ & Hr).
  destruct (runDefers_spec defers w1) as (Ho & _ & _).
  exists k, datas. cbn [Peer.emit Peer.outFile]. rewrite Ho, Hout.
  cbn [Peer.truncate Peer.outFile app].
  split; [lia|]. split; [reflexivity|]. split; [exact Hall|].
  split; [apply verified_total_size, Hall | exact Hr].
Qed.

Lemma DownloadFile_output_is_verified_prefix_witness :
  let env := {| Peer.dialOk := fun _ => true;
                Peer.sendOk := fun _ => true;
                Peer.reply := fun _ i => (bytes_of (if i =? 0 then "a" else "X"), false);
                Peer.mkdirOk := true;
                Peer.createOk := true;
                Peer.writeOk := fun _ => true |} in
  let manifest := {| File.FileName := "f"; File.FileSize := 2; File.ChunkSize := 1;
                     File.Chunks :=
                       [ {| File.Hash := sha256_hex (bytes_of "a"); File.Size := 1 |};
                         {| File.Hash := sha256_hex (bytes_of "b"); File.Size := 1 |} ];
                     File.FileHash := sha256_hex (bytes_of "ab") |} in
  let w := {| Peer.outFile := bytes_of "old contents"; Peer.dialled := 0;
              Peer.trace := [] |} in
  exists (k : nat) (datas : list (list byte)),
    (k <= 2)%nat
    /\ Peer.outFile
         (snd (Peer.DownloadFile env manifest "localhost" 9000 "downloads/f" w))
       = concat datas
    /\ Forall2 (fun c data => File.VerifyChunk c data = true
                              /\ Z.of_nat (length data) = File.Size c)
               (take k (File.Chunks manifest)) datas
    /\ Z.of_nat (length (Peer.outFile
                           (snd (Peer.DownloadFile env manifest "localhost" 9000
                                                   "downloads/f" w))))
       = totalSize (take k (File.Chunks manifest))
    /\ (fst (Peer.DownloadFile env manifest "localhost" 9000 "downloads/f" w) = Ok tt
        <-> k = 2%nat).
Proof.
  intros env manifest w.
  apply (DownloadFile_output_is_verified_prefix env manifest "localhost" 9000
           "downloads/f" w).
  - reflexivity.
  - reflexivity.
  - apply surjective_pairing.
  - vm_compute. discriminate.
Defined.

(** X12.  A download asks for the chunks in the order of the manifest:
    however it ends, the indices it has requested are 0, 1, ..., j-1 for some
    [j] up to the number of chunks, each once; every connection attempt went
    to the address and port it was given, at most one per chunk; and a
    download that succeeds has requested every chunk. *)
Theorem DownloadFile_requests_in_order
        (env : Peer.Env) (manifest : File.Manifest) (peerAddress : string)
        (peerPort : Z) (outputPath : string) (w : Peer.World) :
  let '(r, w') := Peer.DownloadFile env manifest peerAddress peerPort outputPath w in
  exists j j' : nat,
    (j <= j' <= length (File.Chunks manifest))%nat
    /\ Peer.requests (Peer.trace w')
       = Peer.requests (Peer.trace w) ++ seqZ 0 (Z.of_nat j)
    /\ Peer.dials (Peer.trace w')
       = Peer.dials (Peer.trace w) ++ replicate j' (peerAddress, peerPort)
    /\ (r = Ok tt -> j = length (File.Chunks manifest)).
Proof.
  destruct (Peer.DownloadFile _ _ _ _ _ _) as [r w'] eqn:H.
  assert (Hnone : (r, w') = (r, w) -> r <> Ok tt ->
                  exists j j' : nat,
                    (j <= j' <= length (File.Chunks manifest))%nat
                    /\ Peer.requests (Peer.trace w')
                       = Peer.requests (Peer.trace w) ++ seqZ 0 (Z.of_nat j)
                    /\ Peer.dials (Peer.trace w')
                       = Peer.dials (Peer.trace w) ++ replicate j' (peerAddress, peerPort)
                    /\ (r = Ok tt -> j = length (File.Chunks manifest))).
  { intros [= ->] Hr. exists 0%nat, 0%nat. rewrite seqZ_nil by lia.
    cbn [replicate]. rewrite !app_nil_r. repeat split; auto; try lia.
    intros ?. contradiction. }
  destruct (Peer.mkdirOk env) eqn:Hmk.
  2:{ unfold Peer.DownloadFile in H. rewrite Hmk in H. cbn [negb] in H.
      injection H as <- <-. apply Hnone; [reflexivity | discriminate]. }
  destruct (Peer.createOk env) eqn:Hcr.
  2:{ unfold Peer.DownloadFile in H. rewrite Hmk, Hcr in H. cbn [negb] in H.
      injection H as <- <-. apply Hnone; [reflexivity | discriminate]. }
  clear Hnone.
  apply DownloadFile_run in H as (defers & w1 & Hloop & ->); [|assumption..].
  apply downloadLoop_any in Hloop
    as (k & j & j' & datas & Hkj & Hj & _ & _ & Hreq & Hdial & Hr).
  destruct (runDefers_spec defers w1) as (_ & _ & Ht).
  exists j, j'. cbn [Peer.emit Peer.trace]. rewrite Ht.
  rewrite !requests_app, !dials_app, requests_closes, dials_closes, Hreq, Hdial.
  cbn [Peer.truncate Peer.trace]. rewrite requests_app, dials_app. cbn.
  rewrite !app_nil_r.
  split; [lia|]. split; [reflexivity|]. split; [reflexivity|].
  intros Hok. apply Hr in Hok. lia.
Qed.

Lemma closes_all (l : list nat) :
  forall open : list nat,
    (forall c, In c open -> In c l) ->
    openConns (Peer.EvConnClose <$> l) open = [].
Proof.
  unfold openConns.
  induction l as [|c l IH]; intros open Hsub; cbn [fmap list_fmap fold_left].
  - destruct open as [|x open]; [reflexivity|]. destruct (Hsub x); left; reflexivity.
  - apply IH. intros x Hx. cbn [Peer.openAfter] in Hx.
    apply filter_In in Hx as [Hin Hne].
    destruct (Hsub x Hin) as [->|]; [|assumption].
    rewrite Nat.eqb_refl in Hne. discriminate.
Qed.

(** X13.  No connection is left open.  Whatever the network and the disk
    do and however the download ends, every connection that [DownloadFile]
    has dialled is closed when it returns; and when the output directory or
    the output file cannot be created nothing is dialled, nothing is
    written and the error is returned. *)
Theorem DownloadFile_closes_every_connection
        (env : Peer.Env) (manifest : File.Manifest) (peerAddress : string)
        (peerPort : Z) (outputPath : string) (w : Peer.World) :
  let '(r, w') := Peer.DownloadFile env manifest peerAddress peerPort outputPath w in
  (exists evs : list Peer.Event,
     Peer.trace w' = Peer.trace w ++ evs /\ openConns evs [] = [])
  /\ (Peer.mkdirOk env && Peer.createOk env = false -> w' = w /\ r <> Ok tt).
Proof.
  destruct (Peer.DownloadFile _ _ _ _ _ _) as [r w'] eqn:H.
  destruct (Peer.mkdirOk env) eqn:Hmk.
  2:{ unfold Peer.DownloadFile in H. rewrite Hmk in H. cbn [negb] in H.
      injection H as <- <-. split; [exists []; rewrite app_nil_r; auto|].
      intros _. split; [reflexivity | discriminate]. }
  destruct (Peer.createOk env) eqn:Hcr.
  2:{ unfold Peer.DownloadFile in H. rewrite Hmk, Hcr in H. cbn [negb] in H.
      injection H as <- <-. split; [exists []; rewrite app_nil_r; auto|].
      intros _. split; [reflexivity | discriminate]. }
  split; [|discriminate].
  apply DownloadFile_run in H as (defers & w1 & Hloop & ->); [|assumption..].
  apply downloadLoop_opens in Hloop as (evs & new & Htr & -> & Hopen & _).
  destruct (runDefers_spec (new ++ []) w1) as (_ & _ & Ht).
  exists ((([Peer.EvCreate outputPath] ++ evs) ++ (Peer.EvConnClose <$> new ++ []))
          ++ [Peer.EvFileClose]).
  cbn [Peer.emit Peer.trace]. rewrite Ht, Htr. cbn [Peer.truncate Peer.trace].
  split; [rewrite <- !app_assoc; reflexivity|].
  unfold openConns. rewrite !fold_left_app. cbn [fold_left Peer.openAfter].
  rewrite Hopen. rewrite !app_nil_r.
  apply (closes_all new new). auto.
Qed.

(** X14.  [DownloadChunk] makes one connection attempt, leaves the output
    file alone, and has closed the connection when it returns, also when
    sending or reading fails. *)
Theorem DownloadChunk_effects
        (env : Peer.Env) (peer : Peer.Peer) (chunkIndex : Z) (w : Peer.World) :
  let '(r, w') := Peer.DownloadChunk env peer chunkIndex w in
  Peer.outFile w' = Peer.outFile w
  /\ exists evs : list Peer.Event,
       Peer.trace w' = Peer.trace w ++ evs
       /\ Peer.dials evs = [(Peer.Address peer, Peer.Port peer)]
       /\ openConns evs [] = []
       /\ (Peer.requests evs = [] \/ Peer.requests evs = [chunkIndex]).
Proof.
  unfold Peer.DownloadChunk.
  destruct (Peer.dialOk env (Peer.dialled w)); cbn [negb].
  2:{ split; [reflexivity|]. eexists. split; [reflexivity|]. cbn. auto. }
  destruct (Peer.sendOk env (Peer.dialled w)); cbn [negb].
  2:{ split; [reflexivity|]. eexists.
      split; [cbn; rewrite <- app_assoc; reflexivity|]. cbn.
      rewrite Nat.eqb_refl. auto. }
  destruct (Peer.ReadAll _) as [e|data];
    (split; [reflexivity|]; eexists;
     split; [cbn; rewrite <- !app_assoc; reflexivity|]; cbn;
     rewrite Nat.eqb_refl; auto).
Qed.

(** X15.  Chunker and download compose on a file of one chunk.  For a
    non-empty file of at most [chunkSize] bytes and the manifest that
    [CreateManifest] makes of it, a download over a connection on which the
    bytes of the file arrive (followed by anything, or nothing) succeeds and
    the output file is the file. *)
Theorem DownloadFile_single_chunk_round_trip
        (fs : FS) (filePath : string) (f extra : list byte) (chunkSize : Z)
        (env : Peer.Env) (peerAddress : string) (peerPort : Z)
        (outputPath : string) (w : Peer.World) :
  fs !! filePath = Some f ->
  0 < Z.of_nat (length f) <= chunkSize ->
  Z.of_nat (length f) + chunkSize - 1 <= MaxInt64 ->
  Peer.mkdirOk env = true ->
  Peer.createOk env = true ->
  Peer.dialOk env (Peer.dialled w) = true ->
  Peer.sendOk env (Peer.dialled w) = true ->
  fst (Peer.reply env (Peer.dialled w) 0) = f ++ extra ->
  Peer.writeOk env 0 = true ->
  exists (m : File.Manifest) (w' : Peer.World),
    File.CreateManifest fs filePath chunkSize = Ok m
    /\ Peer.DownloadFile env m peerAddress peerPort outputPath w = (Ok tt, w')
    /\ Peer.outFile w' = f
    /\ sha256_hex (Peer.outFile w') = File.FileHash m.
Proof.
  intros Hf [Hpos Hle] Hno Hmk Hcr Hdial Hsend Hreply Hwrite.
  assert (Hcs : 0 < chunkSize) by lia.
  assert (Hn : File.numChunksExact (Z.of_nat (length f)) chunkSize = 1).
  { rewrite numChunksExact_small by lia.
    destruct (Z.eqb_spec (Z.of_nat (length f)) 0); [lia | reflexivity]. }
  assert (Hsz : File.sizeAt (Z.of_nat (length f)) chunkSize 0 = Z.of_nat (length f)).
  { unfold File.sizeAt. rewrite Hn. change (0 =? 1 - 1) with true. cbv iota. lia. }
  eexists _, _.
  split; [apply CreateManifest_exact; eassumption|].
  unfold Peer.DownloadFile. rewrite Hmk, Hcr. cbn [negb File.Chunks].
  rewrite Hn, (seqZ_cons 0 1), seqZ_nil by lia.
  cbn [fmap list_fmap Peer.downloadLoop Peer.truncate Peer.dialled].
  rewrite Hdial, Hsend. cbn [negb File.chunkAt File.Size File.Hash].
  rewrite Hsz.
  destruct (Z.ltb_spec (Z.of_nat (length f)) 0); [lia|].
  cbn [Peer.connect Peer.emit Peer.dialled].
  unfold Peer.ReadFullConn. rewrite Hreply, Nat2Z.id, length_app.
  destruct (Nat.leb_spec (length f) (length f + length extra)); [|lia].
  rewrite take_app_length.
  unfold File.VerifyChunk, File.hashFrom. cbn [File.Hash].
  change (Z.to_nat (0 * Z.of_nat (length f))) with 0%nat.
  cbn [drop]. rewrite String.eqb_refl, Hwrite. cbn [negb].
  split; [reflexivity|].
  match goal with
  | |- context [Peer.runDefers ?d ?w0] => destruct (runDefers_spec d w0) as (Ho & _ & _)
  end.
  cbn [Peer.emit Peer.outFile File.FileHash]. rewrite Ho.
  cbn [Peer.append Peer.outFile app]. auto.
Qed.

Lemma DownloadFile_single_chunk_round_trip_witness :
  let env := {| Peer.dialOk := fun _ => true;
                Peer.sendOk := fun _ => true;
                Peer.reply := fun _ _ => (bytes_of "abc", false);
                Peer.mkdirOk := true;
                Peer.createOk := true;
                Peer.writeOk := fun _ => true |} in
  exists (m : File.Manifest) (w' : Peer.World),
    File.CreateManifest {[ "f"%string := bytes_of "abc" ]} "f" File.DefaultChunkSize = Ok m
    /\ Peer.DownloadFile env m "localhost" 9000 "downloads/f" Peer.world0 = (Ok tt, w')
    /\ Peer.outFile w' = bytes_of "abc"
    /\ sha256_hex (Peer.outFile w') = File.FileHash m.
Proof.
  intros env.
  apply (DownloadFile_single_chunk_round_trip
           {[ "f"%string := bytes_of "abc" ]} "f" (bytes_of "abc") []
           File.DefaultChunkSize env "localhost" 9000 "downloads/f" Peer.world0).
  - reflexivity.
  - split; [reflexivity | vm_compute; discriminate].
  - vm_compute. discriminate.
  - reflexivity.
  - reflexivity.
  - reflexivity.
  - reflexivity.
  - reflexivity.
  - reflexivity.
Defined.

(** ** Package tracker *)

(** The effect of one announcement on the list of a hash. *)
Lemma Announce_step
        (t : Tracker.Tracker) (r : Tracker.Request) (h : string) :
  Tracker.peers (fst (Tracker.Announce t r)) !! h = Tracker.peers t !! h
  \/ exists req : Tracker.AnnounceRequest,
       Tracker.Method r = "POST"%string
       /\ Tracker.Body r = Some req
       /\ Tracker.req_FileHash req = h
       /\ Tracker.peers (fst (Tracker.Announce t r)) !! h
          = Some (default [] (Tracker.peers t !! h)
                  ++ [ {| Tracker.Address := Tracker.req_Address req;
                          Tracker.Port := Tracker.req_Port req |} ]).
Proof.
  destruct (Announce_state t r) as [-> | (req & HM & HB & _ & ->)]; [left; reflexivity|].
  cbn [Tracker.peers].
  destruct (decide (Tracker.req_FileHash req = h)) as [<-|Hne].
  - right. exists req. rewrite lookup_insert_eq. auto.
  - left. apply lookup_insert_ne. exact Hne.
Qed.

(** X16.  One announcement changes at most the list of its own hash, and
    that by appending the announced peer at its end: for every hash, the
    list after [Announce] is the list before, or it is the list before
    followed by the peer of the request, and then the hash is that of the
    request. *)
Theorem Announce_appends_at_most_one
        (t : Tracker.Tracker) (r : Tracker.Request) (h : string) :
  Tracker.peers (fst (Tracker.Announce t r)) !! h = Tracker.peers t !! h
  \/ exists req : Tracker.AnnounceRequest,
       Tracker.Method r = "POST"%string
       /\ Tracker.Body r = Some req
       /\ Tracker.req_FileHash req = h
       /\ Tracker.peers (fst (Tracker.Announce t r)) !! h
          = Some (default [] (Tracker.peers t !! h)
                  ++ [ {| Tracker.Address := Tracker.req_Address req;
                          Tracker.Port := Tracker.req_Port req |} ]).
Proof. apply Announce_step. Qed.

Lemma serve_extends (t : Tracker.Tracker) (c : Tracker.Call) (h : string)
      (l : list Tracker.Peer) :
  Tracker.peers t !! h = Some l ->
  exists l', Tracker.peers (Tracker.serve t c) !! h = Some (l ++ l').
Proof.
  intros Hl. destruct c as [r|r]; cbn [Tracker.serve].
  - destruct (Announce_step t r h) as [-> | (req & _ & _ & _ & ->)].
    + exists []. rewrite app_nil_r. exact Hl.
    + rewrite Hl. cbn. eauto.
  - exists []. rewrite app_nil_r. exact Hl.
Qed.

Lemma fold_serve_extends (calls : list Tracker.Call) (h : string) :
  forall (t : Tracker.Tracker) (l : list Tracker.Peer),
    Tracker.peers t !! h = Some l ->
    exists l', Tracker.peers (fold_left Tracker.serve calls t) !! h = Some (l ++ l').
Proof.
  induction calls as [|c calls IH]; intros t l Hl; cbn [fold_left].
  - exists []. rewrite app_nil_r. exact Hl.
  - destruct (serve_extends t c h l Hl) as [l1 H1].
    destruct (IH _ _ H1) as [l2 H2].
    exists (l1 ++ l2). rewrite app_assoc. exact H2.
Qed.

(** X17.  The registry only grows, at the end of its lists: what is listed
    under a hash stays listed, in the same order and at the same positions,
    whatever calls follow.  There is no removal, and the first peer of a
    list, which is the one the client downloads from, never changes. *)
Theorem registry_only_grows (calls calls' : list Tracker.Call) (h : string)
        (l : list Tracker.Peer) :
  Tracker.peers (Tracker.run calls) !! h = Some l ->
  exists l' : list Tracker.Peer,
    Tracker.peers (Tracker.run (calls ++ calls')) !! h = Some (l ++ l')
    /\ (forall (i : nat) (p : Tracker.Peer),
          l !! i = Some p -> (l ++ l') !! i = Some p)
    /\ (forall p : Tracker.Peer,
          (Tracker.entries (Tracker.run calls) h p
           <= Tracker.entries (Tracker.run (calls ++ calls')) h p)%nat).
Proof.
  intros Hl. unfold Tracker.run in *. rewrite fold_left_app.
  destruct (fold_serve_extends calls' h _ l Hl) as [l' Hl'].
  exists l'. split; [exact Hl'|]. split.
  - intros i p Hi. apply lookup_app_l_Some. exact Hi.
  - intros p. unfold Tracker.entries. rewrite Hl, Hl'. cbn [default from_option id].
    rewrite List.filter_app, length_app. lia.
Qed.

Lemma registry_only_grows_witness :
  exists l' : list Tracker.Peer,
    Tracker.peers
      (Tracker.run ([Tracker.ToAnnounce (Tracker.announcement "abc" "10.0.0.1" 9000)]
                    ++ [Tracker.ToAnnounce (Tracker.announcement "abc" "10.0.0.2" 9000)]))
      !! "abc"%string
    = Some ([ {| Tracker.Address := "10.0.0.1"; Tracker.Port := 9000 |} ] ++ l').
Proof.
  destruct (registry_only_grows
              [Tracker.ToAnnounce (Tracker.announcement "abc" "10.0.0.1" 9000)]
              [Tracker.ToAnnounce (Tracker.announcement "abc" "10.0.0.2" 9000)]
              "abc" [ {| Tracker.Address := "10.0.0.1"; Tracker.Port := 9000 |} ])
    as (l' & H & _).
  - vm_compute. reflexivity.
  - exists l'. exact H.
Defined.

Lemma announces_listed (t : Tracker.Tracker) (c : Tracker.Call) (h : string) :
  Tracker.announces h c = true ->
  is_Some (Tracker.peers (Tracker.serve t c) !! h).
Proof.
  destruct c as [r|r]; cbn [Tracker.announces Tracker.serve]; [|discriminate].
  intros H. apply andb_true_iff in H as [HM HB].
  apply String.eqb_eq in HM.
  destruct (Tracker.Body r) as [req|] eqn:Hreq; [|discriminate].
  apply String.eqb_eq in HB. subst h.
  pose proof (Announce_listed t r req HM Hreq) as Hin.
  unfold Tracker.entries in Hin.
  destruct (Tracker.peers (fst (Tracker.Announce t r)) !! Tracker.req_FileHash req);
    [eauto | cbn in Hin; lia].
Qed.

Lemma fold_serve_announced (h : string) (calls : list Tracker.Call) :
  forall t,
    forallb (fun c => negb (Tracker.announces h c)) calls = false ->
    is_Some (Tracker.peers (fold_left Tracker.serve calls t) !! h).
Proof.
  induction calls as [|c calls IH]; intros t Hno; cbn [forallb fold_left] in *;
    [discriminate|].
  destruct (Tracker.announces h c) eqn:Hc; cbn [negb andb] in Hno.
  - destruct (announces_listed t c h Hc) as [l Hl].
    destruct (fold_serve_extends calls h _ l Hl) as [l' Hl']. eauto.
  - apply IH. exact Hno.
Qed.

(** X18.  The hashes that the registry knows are those that have been
    announced: after any calls, a hash has no entry exactly when no POST
    with a body that decodes has named it. *)
Theorem registry_knows_what_was_announced (calls : list Tracker.Call) (h : string) :
  Tracker.peers (Tracker.run calls) !! h = None
  <-> forallb (fun c => negb (Tracker.announces h c)) calls = true.
Proof.
  split.
  - intros Hnone.
    destruct (forallb _ calls) eqn:Hall; [reflexivity|].
    destruct (fold_serve_announced h calls Tracker.NewTracker Hall) as [l Hl].
    unfold Tracker.run in Hnone. congruence.
  - apply fold_serve_unannounced, lookup_empty.
Qed.

Lemma fold_serve_nonempty (calls : list Tracker.Call) :
  forall t,
    (forall h l, Tracker.peers t !! h = Some l -> l <> []) ->
    forall h l, Tracker.peers (fold_left Tracker.serve calls t) !! h = Some l -> l <> [].
Proof.
  induction calls as [|c calls IH]; intros t Ht; cbn [fold_left]; [exact Ht|].
  apply IH. intros h l.
  destruct c as [r|r]; cbn [Tracker.serve]; [|apply Ht].
  destruct (Announce_step t r h) as [-> | (req & _ & _ & _ & ->)];
    [apply Ht|].
  intros [= <-]. intros Habs. apply app_eq_nil in Habs as [_ Habs]. discriminate.
Qed.

(** X19.  No list of the registry is empty, so [GetPeers] never writes an
    empty array: the body of its answer to any request has [null] or an
    array with at least one peer. *)
Theorem GetPeers_never_writes_empty_array
        (calls : list Tracker.Call) (r : Tracker.Request) :
  (forall (h : string) (l : list Tracker.Peer),
     Tracker.peers (Tracker.run calls) !! h = Some l -> l <> [])
  /\ Tracker.body (Tracker.GetPeers (Tracker.run calls) r)
     <> Tracker.Json (Tracker.JObj [("peers"%string, Tracker.JArr [])]).
Proof.
  assert (Hne : forall h l, Tracker.peers (Tracker.run calls) !! h = Some l -> l <> []).
  { apply fold_serve_nonempty. intros h l. cbn. rewrite lookup_empty. discriminate. }
  split; [exact Hne|].
  unfold Tracker.GetPeers.
  destruct (negb _); [discriminate|].
  destruct (String.eqb _ ""); [discriminate|].
  cbn [Tracker.body Tracker.encodePeersResponse Tracker.Peers].
  destruct (Tracker.peers (Tracker.run calls) !! _) as [l|] eqn:Hl; [|discriminate].
  apply Hne in Hl. destruct l; [contradiction | discriminate].
Qed.

(** X20.  Announce, then look up.  After the announcement of a peer for a
    non-empty hash, whatever was served before and whatever is served
    after, [GetPeers] for the hash answers 200 with the array of the peers
    listed under it, in the order of their first announcements, and the
    peer is in it once. *)
Theorem GetPeers_after_Announce
        (calls calls' : list Tracker.Call) (fileHash address : string) (port : Z) :
  fileHash <> ""%string ->
  let a := Tracker.ToAnnounce (Tracker.announcement fileHash address port) in
  let p := {| Tracker.Address := address; Tracker.Port := port |} in
  let t := Tracker.run (calls ++ a :: calls') in
  exists ps : list Tracker.Peer,
    Tracker.peers t !! fileHash = Some ps
    /\ Tracker.GetPeers t (Tracker.peersQuery fileHash)
       = {| Tracker.wroteHeader := None;
            Tracker.contentType := "application/json";
            Tracker.body :=
              Tracker.Json
                (Tracker.JObj [("peers"%string,
                                Tracker.JArr (List.map Tracker.encodePeer ps))]) |}
    /\ Tracker.statusSent (Tracker.GetPeers t (Tracker.peersQuery fileHash)) = 200
    /\ In p ps
    /\ length (List.filter (Tracker.samePeer p) ps) = 1%nat.
Proof.
  intros Hne a p t.
  assert (Hrun : t = Tracker.run ((calls ++ [a]) ++ calls')).
  { unfold t. rewrite <- app_assoc. reflexivity. }
  assert (Hone : Tracker.entries (Tracker.run (calls ++ [a])) fileHash p = 1%nat).
  { apply Nat.le_antisymm; [apply run_unique|].
    unfold Tracker.run. rewrite fold_left_app. cbn [fold_left Tracker.serve].
    apply (Announce_listed _ (Tracker.announcement fileHash address port)
             (Tracker.Build_AnnounceRequest fileHash address port)); reflexivity. }
  destruct (Tracker.peers (Tracker.run (calls ++ [a])) !! fileHash) as [l|] eqn:Hl.
  2:{ unfold Tracker.entries in Hone. rewrite Hl in Hone. discriminate. }
  destruct (fold_serve_extends calls' fileHash _ l Hl) as (l' & Hl').
  change (fold_left Tracker.serve calls' (Tracker.run (calls ++ [a])))
    with (fold_left Tracker.serve calls' (fold_left Tracker.serve (calls ++ [a]) Tracker.NewTracker))
    in Hl'.
  rewrite <- fold_left_app in Hl'.
  change (fold_left Tracker.serve ((calls ++ [a]) ++ calls') Tracker.NewTracker)
    with (Tracker.run ((calls ++ [a]) ++ calls')) in Hl'.
  rewrite <- Hrun in Hl'.
  exists (l ++ l').
  assert (Hcount : Tracker.entries t fileHash p = 1%nat).
  { apply Nat.le_antisymm; [apply run_unique|]. rewrite <- Hone.
    unfold Tracker.entries. rewrite Hl, Hl'. cbn [default from_option id].
    rewrite List.filter_app, length_app. lia. }
  assert (Hget : Tracker.GetPeers t (Tracker.peersQuery fileHash)
                 = {| Tracker.wroteHeader := None;
                      Tracker.contentType := "application/json";
                      Tracker.body :=
                        Tracker.Json
                          (Tracker.JObj [("peers"%string,
                                          Tracker.JArr (List.map Tracker.encodePeer (l ++ l')))]) |}).
  { unfold Tracker.GetPeers, Tracker.peersQuery.
    cbn [Tracker.Method Tracker.Query Tracker.queryGet negb].
    change (String.eqb "GET" "GET") with true.
    change (String.eqb "fileHash" "fileHash") with true. cbn [negb].
    destruct (String.eqb_spec fileHash ""); [contradiction|].
    unfold Tracker.encodePeersResponse. cbn [Tracker.Peers].
    rewrite Hl'. reflexivity. }
  unfold Tracker.entries in Hcount. rewrite Hl' in Hcount.
  cbn [default from_option id] in Hcount.
  split; [exact Hl'|]. split; [exact Hget|]. split; [rewrite Hget; reflexivity|].
  split; [|exact Hcount].
  destruct (List.filter (Tracker.samePeer p) (l ++ l')) as [|q qs] eqn:Hf;
    [discriminate|].
  assert (Hq : In q (List.filter (Tracker.samePeer p) (l ++ l'))) by (rewrite Hf; left; reflexivity).
  apply filter_In in Hq as [Hin Hsame]. apply samePeer_eq in Hsame. subst q. exact Hin.
Qed.

Lemma GetPeers_after_Announce_witness :
  exists ps : list Tracker.Peer,
    Tracker.peers
      (Tracker.run ([] ++ Tracker.ToAnnounce (Tracker.announcement "abc" "localhost" 9000) :: []))
      !! "abc"%string = Some ps
    /\ In {| Tracker.Address := "localhost"; Tracker.Port := 9000 |} ps.
Proof.
  destruct (GetPeers_after_Announce [] [] "abc" "localhost" 9000)
    as (ps & Hps & _ & _ & Hin & _).
  - discriminate.
  - exists ps. split; [exact Hps | exact Hin].
Defined.

Lemma run_snoc (calls : list Tracker.Call) (c : Tracker.Call) :
  Tracker.run (calls ++ [c]) = Tracker.serve (Tracker.run calls) c.
Proof. unfold Tracker.run. rewrite fold_left_app. reflexivity. Qed.

(** X21.  The peers listed under a hash are the peers announced for it:
    after any calls, a peer is in the list of a hash exactly when some POST
    with a body that decodes has announced this address and port for this
    hash. *)
Theorem listed_iff_announced (calls : list Tracker.Call) (h : string) (p : Tracker.Peer) :
  (exists l : list Tracker.Peer,
     Tracker.peers (Tracker.run calls) !! h = Some l /\ In p l)
  <-> existsb (announcesPeer h p) calls = true.
Proof.
  induction calls as [|c calls IH] using rev_ind.
  - cbn. split; [|discriminate]. intros (l & Hl & _).
    rewrite lookup_empty in Hl. discriminate.
  - rewrite run_snoc, existsb_app. cbn [existsb]. rewrite orb_false_r, orb_true_iff.
    split.
    + intros (l & Hl & Hin).
      destruct c as [r|r]; cbn [Tracker.serve] in Hl;
        [|left; apply IH; eauto].
      destruct (Announce_step (Tracker.run calls) r h) as [Hsame | (req & HM & HB & Hh & Hnew)].
      * left. apply IH. rewrite Hsame in Hl. eauto.
      * rewrite Hnew in Hl. injection Hl as <-.
        apply in_app_or in Hin as [Hold | [<- | []]].
        -- left. apply IH.
           destruct (Tracker.peers (Tracker.run calls) !! h) as [l0|]; [eauto | destruct Hold].
        -- right. cbn [announcesPeer]. rewrite HM, HB, Hh.
           rewrite !String.eqb_refl, samePeer_refl. reflexivity.
    + intros [Hbefore | Hnow].
      * apply IH in Hbefore as (l & Hl & Hin).
        destruct (serve_extends (Tracker.run calls) c h l Hl) as [l' Hl'].
        exists (l ++ l'). split; [exact Hl' | apply in_or_app; left; exact Hin].
      * destruct c as [r|r]; cbn [announcesPeer] in Hnow; [|discriminate].
        apply andb_true_iff in Hnow as [HM Hnow]. apply String.eqb_eq in HM.
        destruct (Tracker.Body r) as [req|] eqn:HB; [|discriminate].
        apply andb_true_iff in Hnow as [Hh Hp].
        apply String.eqb_eq in Hh. apply samePeer_eq in Hp. subst h p.
        pose proof (Announce_listed (Tracker.run calls) r req HM HB) as Hin.
        unfold Tracker.entries in Hin. cbn [Tracker.serve].
        destruct (Tracker.peers (fst (Tracker.Announce (Tracker.run calls) r))
                    !! Tracker.req_FileHash req) as [l|]; [|cbn in Hin; lia].
        exists l. split; [reflexivity|]. cbn [default from_option id] in Hin.
        destruct (List.filter _ l) as [|q qs] eqn:Hf; [cbn in Hin; lia|].
        assert (Hq : In q (List.filter
                             (Tracker.samePeer
                                {| Tracker.Address := Tracker.req_Address req;
                                   Tracker.Port := Tracker.req_Port req |}) l))
          by (rewrite Hf; left; reflexivity).
        apply filter_In in Hq as [Hq Hsame]. apply samePeer_eq in Hsame.
        subst q. exact Hq.
Qed.
